(** * hubhop: HubSpot deal export, shallow embedding of [hubspot-sync.js]

    The export script and the OAuth bootstrap script are embedded as pure
    functions over an explicit [World]: the process-wide [config] object, the
    bearer token held by [hubspotClient], the files the scripts touch, and
    the answers the vendor gives.  An awaited vendor call takes the next
    answer of its capability from the world; when no answer is left the
    call is still awaiting, which is the outcome [Pending].  Every external
    call is appended to the world's [calls].  Console output is not
    modelled. *)

From stdpp Require Import base option list gmap strings.
From Stdlib Require Import ZArith DecimalString Ascii.
From Stdlib Require Import DecimalZ.

#[local] Set Warnings "-clear-no-such-hyp".

(** ** JavaScript strings

    A string is a sequence of code units below 256 ([ascii]); the line
    terminators in that range are LF and CR. *)

Definition LF : ascii := "010"%char.
Definition CR : ascii := "013"%char.

Definition is_line_terminator (c : ascii) : bool :=
  Ascii.eqb c LF || Ascii.eqb c CR.

Definition is_digit (c : ascii) : bool :=
  (48 <=? nat_of_ascii c) && (nat_of_ascii c <=? 57).

(** [strip_prefix p s]: the rest of [s] after its prefix [p]. *)
Fixpoint strip_prefix (p s : string) : option string :=
  match p, s with
  | EmptyString, _ => Some s
  | String a p', String b s' => if Ascii.eqb a b then strip_prefix p' s' else None
  | String _ _, EmptyString => None
  end.

(** Leftmost occurrence of [p] in [s]: the text before it and after it. *)
Fixpoint search (p s : string) : option (string * string) :=
  match strip_prefix p s with
  | Some rest => Some (EmptyString, rest)
  | None =>
      match s with
      | EmptyString => None
      | String c s' =>
          match search p s' with
          | Some (before, rest) => Some (String c before, rest)
          | None => None
          end
      end
  end.

(** [s.includes(p)] *)
Definition includes (p s : string) : bool :=
  match search p s with Some _ => true | None => false end.

(** The greedy capture group of the pattern (any characters but line
    terminators): the longest prefix without a line terminator, and the
    rest. *)
Fixpoint dot_star (s : string) : string * string :=
  match s with
  | EmptyString => (EmptyString, EmptyString)
  | String c s' =>
      if is_line_terminator c then (EmptyString, s)
      else let (cap, rest) := dot_star s' in (String c cap, rest)
  end.

Record RegExpMatch := mkMatch {
  leftContext : string;
  matched : string;
  capture1 : string;
  rightContext : string
}.

(** The patterns of [updateEnvFile] are a literal [KEY=] followed by the
    greedy capture group: [exec_key key s] finds the leftmost occurrence of
    [key] in [s] and extends it to the end of its line.  The patterns carry
    no anchor and no flag. *)
Definition exec_key (key s : string) : option RegExpMatch :=
  match search key s with
  | None => None
  | Some (before, rest) =>
      let (cap, after) := dot_star rest in
      Some (mkMatch before (key +:+ cap) cap after)
  end.

(** GetSubstitution of ECMAScript for a pattern with one capture group:
    [$$], [$&], [$`], [$'], [$1] and [$01] are expanded in the replacement
    text; a two-digit reference above the group count falls back to its
    first digit. *)
Fixpoint GetSubstitution (m : RegExpMatch) (template : string) : string :=
  match template with
  | EmptyString => EmptyString
  | String c tl =>
      if Ascii.eqb c "$" then
        match tl with
        | EmptyString => String c EmptyString
        | String d rest =>
            if Ascii.eqb d "$" then String "$" (GetSubstitution m rest)
            else if Ascii.eqb d "&" then matched m +:+ GetSubstitution m rest
            else if Ascii.eqb d "`" then leftContext m +:+ GetSubstitution m rest
            else if Ascii.eqb d "'" then rightContext m +:+ GetSubstitution m rest
            else if is_digit d then
              match rest with
              | String d2 rest2 =>
                  if is_digit d2 && Ascii.eqb d "0" && Ascii.eqb d2 "1"
                  then capture1 m +:+ GetSubstitution m rest2
                  else if is_digit d2 && Ascii.eqb d "0" && Ascii.eqb d2 "0"
                  then String "$" (String d (String d2 (GetSubstitution m rest2)))
                  else if Ascii.eqb d "1"
                  then capture1 m +:+ GetSubstitution m rest
                  else String "$" (String d (GetSubstitution m rest))
              | EmptyString =>
                  if Ascii.eqb d "1" then capture1 m
                  else String "$" (String d EmptyString)
              end
            else String "$" (GetSubstitution m tl)
        end
      else String c (GetSubstitution m tl)
  end.

(** [s.replace(pattern, template)] for such a pattern: only the first match
    is replaced. *)
Definition replace_key (key template s : string) : string :=
  match exec_key key s with
  | None => s
  | Some m => leftContext m +:+ GetSubstitution m template +:+ rightContext m
  end.

(** The lines of a text, separated by LF. *)
Fixpoint lines (s : string) : list string :=
  match s with
  | EmptyString => [EmptyString]
  | String c s' =>
      if Ascii.eqb c LF then EmptyString :: lines s'
      else match lines s' with
           | l :: ls => String c l :: ls
           | [] => [String c EmptyString]
           end
  end.

(** A value that is a string or [undefined]. *)
Definition truthy (v : option string) : bool :=
  match v with
  | Some s => negb (String.eqb s EmptyString)
  | None => false
  end.

(** Interpolation [${v}] in a template literal. *)
Definition interpolate (v : option string) : string :=
  match v with Some s => s | None => "undefined" end.

Definition number_to_string (z : Z) : string :=
  NilZero.string_of_int (Z.to_int z).

Definition nl : string := String LF EmptyString.

(** ** Vendor data *)

Record Error := mkError {
  message : string;
  code : option string
}.

(** A deal as listed by the vendor; [d_id] is its [id]. *)
Record Deal := mkDeal {
  d_id : string;
  d_properties : list (string * string)
}.

(** An engagement object (note, call, meeting, email or task), passed
    through as the vendor returns it. *)
Record CrmObject := mkObject {
  o_id : string;
  o_properties : list (string * string)
}.

Record Association := mkAssociation {
  toObjectId : string;
  associationTypes : list string
}.

Record NextPage := mkNext { after : string }.
Record Paging := mkPaging { next : option NextPage }.

(** Response of [crm.deals.basicApi.getPage]. *)
Record PageResponse := mkPage {
  results : list Deal;
  paging : option Paging
}.

(** Response of [crm.deals.associationsApi.getAll]; [None] is a response
    without [results]. *)
Record AssociationsResponse := mkAssociations {
  a_results : option (list Association)
}.

(** Response of a [batchApi.read]; [None] is a response that is missing or
    has no [results]. *)
Record BatchResponse := mkBatch {
  b_results : option (list CrmObject)
}.

(** Response of [oauth.tokensApi.create]. *)
Record TokenResponse := mkTokenResponse {
  res_accessToken : option string;
  res_refreshToken : option string;
  res_expiresIn : Z
}.

(** The [tokens] object built from it. *)
Record Tokens := mkTokens {
  tok_accessToken : option string;
  tok_refreshToken : option string;
  tok_expiresAt : Z
}.

(** The outcome of one awaited vendor call. *)
Inductive Answer (A : Type) : Type :=
| Ok (a : A)
| Failed (error : Error).
Arguments Ok {A} a.
Arguments Failed {A} error.

(** The five batch-read capabilities of the dispatch in
    [getAssociatedObjects]. *)
Inductive BatchApi := NotesBatch | EmailsBatch | CallsBatch | MeetingsBatch | TasksBatch.

(** What [getAssociatedObjects] returns: the record
    [{ associations, objects }], or the bare [associations.results] array. *)
Record AssociatedObjects := mkAssociated {
  associations : list Association;
  objects : list CrmObject
}.

Inductive Resolution :=
| Full (r : AssociatedObjects)
| Raw (l : list Association).

(** The record built by [getDealActivities]; [timestamp] is the clock
    reading behind the ISO string. *)
Record ActivityRecord := mkActivities {
  deal_id : string;
  timestamp : Z;
  error : option string;
  activity_types : gmap string Resolution
}.

Inductive Path :=
| Name (p : string)
| Join (dir file : string).

(** What is handed to [fs.writeFile]: a text, or the JSON text of a value. *)
Inductive FileData :=
| Text (s : string)
| JsonDeals (deals : list Deal)
| JsonActivities (activities : ActivityRecord).

(** The external calls of the scripts, with their arguments. *)
Inductive Call :=
| GetPage (limit : Z) (cursor : option string) (token : option string)
| AssociationsGetAll (dealId objectType : string)
| BatchRead (api : BatchApi) (inputs : list string)
| TokensCreate (client_id client_secret refresh_token : option string)
| ReadFile (path : string)
| WriteFile (path : Path) (data : FileData)
| Mkdir (path : Path).

(** ** The world *)

Record Config := mkConfig {
  cfg_accessToken : option string;
  cfg_refreshToken : option string;
  cfg_clientId : option string;
  cfg_clientSecret : option string;
  cfg_tokenExpiresAt : option Z;
  cfg_outputDir : string;
  cfg_batchSize : Z;
  cfg_includeAssociations : bool
}.

Record World := mkWorld {
  config : Config;
  (** the access token held by [hubspotClient] *)
  bearer : option string;
  (** [Date.now()] *)
  now : Z;
  (** the text files read by the scripts, by path *)
  files : gmap string string;
  (** when set, [fs.writeFile] and [fs.mkdir] fail with this error *)
  fs_fault : option Error;
  (** the answers still to come, per vendor capability *)
  page_answers : list (Answer PageResponse);
  association_answers : list (Answer AssociationsResponse);
  batch_answers : list (Answer BatchResponse);
  token_answers : list (Answer TokenResponse);
  (** the external calls made so far, oldest first *)
  calls : list Call
}.

Definition set_config (c : Config) (w : World) : World :=
  mkWorld c (bearer w) (now w) (files w) (fs_fault w) (page_answers w)
    (association_answers w) (batch_answers w) (token_answers w) (calls w).

Definition setAccessToken (t : option string) (w : World) : World :=
  mkWorld (config w) t (now w) (files w) (fs_fault w) (page_answers w)
    (association_answers w) (batch_answers w) (token_answers w) (calls w).

Definition set_files (f : gmap string string) (w : World) : World :=
  mkWorld (config w) (bearer w) (now w) f (fs_fault w) (page_answers w)
    (association_answers w) (batch_answers w) (token_answers w) (calls w).

Definition set_page_answers (l : list (Answer PageResponse)) (w : World) : World :=
  mkWorld (config w) (bearer w) (now w) (files w) (fs_fault w) l
    (association_answers w) (batch_answers w) (token_answers w) (calls w).

Definition set_association_answers (l : list (Answer AssociationsResponse)) (w : World) : World :=
  mkWorld (config w) (bearer w) (now w) (files w) (fs_fault w) (page_answers w)
    l (batch_answers w) (token_answers w) (calls w).

Definition set_batch_answers (l : list (Answer BatchResponse)) (w : World) : World :=
  mkWorld (config w) (bearer w) (now w) (files w) (fs_fault w) (page_answers w)
    (association_answers w) l (token_answers w) (calls w).

Definition set_token_answers (l : list (Answer TokenResponse)) (w : World) : World :=
  mkWorld (config w) (bearer w) (now w) (files w) (fs_fault w) (page_answers w)
    (association_answers w) (batch_answers w) l (calls w).

(** Record an external call. *)
Definition call (c : Call) (w : World) : World :=
  mkWorld (config w) (bearer w) (now w) (files w) (fs_fault w) (page_answers w)
    (association_answers w) (batch_answers w) (token_answers w) (calls w ++ [c]).

(** ** Computations

    An async function either returns a value, rejects with an error, or is
    still awaiting a vendor answer. *)

Inductive Outcome (A : Type) : Type :=
| Return (a : A) (w : World)
| Throw (e : Error) (w : World)
| Pending.
Arguments Return {A} a w.
Arguments Throw {A} e w.
Arguments Pending {A}.

Definition Js (A : Type) : Type := World -> Outcome A.

Definition ret {A} (a : A) : Js A := fun w => Return a w.

Definition bind {A B} (m : Js A) (k : A -> Js B) : Js B :=
  fun w =>
    match m w with
    | Return a w' => k a w'
    | Throw e w' => Throw e w'
    | Pending => Pending
    end.

(** [try { m } catch (error) { h error }] *)
Definition try_catch {A} (m : Js A) (h : Error -> Js A) : Js A :=
  fun w =>
    match m w with
    | Throw e w' => h e w'
    | o => o
    end.

Notation "'let*' x ':=' m 'in' k" := (bind m (fun x => k))
  (at level 10, x name, m at level 100, k at level 200).

(** ** The file system and the token endpoint *)

Definition ENOENT : Error := mkError "ENOENT: no such file or directory" (Some "ENOENT").

Definition fs_readFile (path : string) : Js string :=
  fun w =>
    let w' := call (ReadFile path) w in
    match files w' !! path with
    | Some content => Return content w'
    | None => Throw ENOENT w'
    end.

(** A text written under a plain name can be read back; the JSON outputs
    are only recorded in [calls], nothing reads them. *)
Definition store (path : Path) (data : FileData) (w : World) : World :=
  match path, data with
  | Name p, Text s => set_files (<[p := s]> (files w)) w
  | _, _ => w
  end.

Definition fs_writeFile (path : Path) (data : FileData) : Js unit :=
  fun w =>
    let w' := call (WriteFile path data) w in
    match fs_fault w' with
    | Some e => Throw e w'
    | None => Return tt (store path data w')
    end.

Definition fs_mkdir (path : Path) : Js unit :=
  fun w =>
    let w' := call (Mkdir path) w in
    match fs_fault w' with
    | Some e => Throw e w'
    | None => Return tt w'
    end.

(** [new Client().oauth.tokensApi.create('refresh_token', ...)] *)
Definition tokensApi_create (client_id client_secret refresh_token : option string)
  : Js TokenResponse :=
  fun w =>
    match token_answers w with
    | [] => Pending
    | answer :: rest =>
        let w' := call (TokensCreate client_id client_secret refresh_token)
                       (set_token_answers rest w) in
        match answer with
        | Ok result => Return result w'
        | Failed e => Throw e w'
        end
    end.

(** The three [replace] statements under "Update token values", the same
    in both [updateEnvFile]s. *)
Definition update_token_values (tokens : Tokens) (dotEnvContent : string) : string :=
  let dotEnvContent :=
    replace_key "HUBSPOT_ACCESS_TOKEN="
      ("HUBSPOT_ACCESS_TOKEN=" +:+ interpolate (tok_accessToken tokens)) dotEnvContent in
  let dotEnvContent :=
    replace_key "HUBSPOT_REFRESH_TOKEN="
      ("HUBSPOT_REFRESH_TOKEN=" +:+ interpolate (tok_refreshToken tokens)) dotEnvContent in
  replace_key "HUBSPOT_TOKEN_EXPIRES_AT="
    ("HUBSPOT_TOKEN_EXPIRES_AT=" +:+ number_to_string (tok_expiresAt tokens)) dotEnvContent.

(** ** The export script *)

Module Sync.

Definition updateEnvFile (tokens : Tokens) : Js unit :=
  try_catch
    (let* dotEnvContent := fs_readFile ".env" in
     let dotEnvContent := update_token_values tokens dotEnvContent in
     fs_writeFile (Name ".env") (Text dotEnvContent))
    (fun error => ret tt).

Definition refreshAccessToken : Js (option string) :=
  try_catch
    (fun w =>
       (let* result :=
          tokensApi_create (cfg_clientId (config w)) (cfg_clientSecret (config w))
            (cfg_refreshToken (config w)) in
        fun w =>
          let tokens :=
            mkTokens (res_accessToken result) (res_refreshToken result)
              (now w + res_expiresIn result * 1000) in
          let w :=
            set_config
              (mkConfig (tok_accessToken tokens) (tok_refreshToken tokens)
                 (cfg_clientId (config w)) (cfg_clientSecret (config w))
                 (Some (tok_expiresAt tokens)) (cfg_outputDir (config w))
                 (cfg_batchSize (config w)) (cfg_includeAssociations (config w)))
              w in
          (let* _ := updateEnvFile tokens in
           ret (tok_accessToken tokens)) w) w)
    (fun error w => Throw error w).

Definition ensureDirectoryExists (directory : Path) : Js unit :=
  try_catch (fs_mkdir directory)
    (fun error w =>
       if decide (code error = Some "EEXIST") then Return tt w else Throw error w).

Definition saveToFile (data : FileData) (filename : string) : Js unit :=
  fun w => fs_writeFile (Join (cfg_outputDir (config w)) filename) data w.

(** [error.message && error.message.includes('401') && config.refreshToken] *)
Definition token_expired (error : Error) (w : World) : bool :=
  negb (String.eqb (message error) EmptyString)
  && includes "401" (message error)
  && truthy (cfg_refreshToken (config w)).

(** The cursor of the next page, when [response.paging && response.paging.next]. *)
Definition next_page (response : PageResponse) : option NextPage :=
  match paging response with
  | Some p => next p
  | None => None
  end.

(** The [while (hasMore)] loop of [getAllDeals]; [answers] are the answers
    of the list-deals capability still to come. *)
Fixpoint getAllDeals_loop (answers : list (Answer PageResponse))
    (after_ : option string) (deals : list Deal) (w : World) : Outcome (list Deal) :=
  match answers with
  | [] => Pending
  | answer :: answers =>
      let w := call (GetPage (cfg_batchSize (config w)) after_ (bearer w))
                    (set_page_answers answers w) in
      match answer with
      | Ok response =>
          let deals := deals ++ results response in
          match next_page response with
          | Some n => getAllDeals_loop answers (Some (after n)) deals w
          | None => Return deals w
          end
      | Failed error =>
          if token_expired error w then
            match refreshAccessToken w with
            | Return newToken w =>
                getAllDeals_loop answers after_ deals (setAccessToken newToken w)
            | Throw refreshError w => Throw refreshError w
            | Pending => Pending
            end
          else Throw error w
      end
  end.

Definition getAllDeals : Js (list Deal) :=
  fun w => getAllDeals_loop (page_answers w) None [] w.

(** The [switch (objectType)] of [getAssociatedObjects]. *)
Definition batch_api (objectType : string) : option BatchApi :=
  if String.eqb objectType "notes" then Some NotesBatch
  else if String.eqb objectType "emails" then Some EmailsBatch
  else if String.eqb objectType "calls" then Some CallsBatch
  else if String.eqb objectType "meetings" then Some MeetingsBatch
  else if String.eqb objectType "tasks" then Some TasksBatch
  else None.

(** [objectIds.slice(i, i + batchSize)] *)
Definition slice {A} (i j : nat) (l : list A) : list A := take (j - i) (drop i l).

Definition batchSize : nat := 100.

(** The [for (let i = 0; i < objectIds.length; i += batchSize)] loop;
    [answers] are the answers of the batch reads still to come. *)
Fixpoint batch_loop (answers : list (Answer BatchResponse)) (objectType : string)
    (association_results : list Association) (objectIds : list string)
    (i : nat) (fullObjects : list CrmObject) (w : World) : Outcome Resolution :=
  if i <? length objectIds then
    let batchIds := slice i (i + batchSize) objectIds in
    match batch_api objectType with
    | Some api =>
        match answers with
        | [] => Pending
        | answer :: answers =>
            let w := call (BatchRead api batchIds) (set_batch_answers answers w) in
            match answer with
            | Ok batchObjects =>
                match b_results batchObjects with
                | Some rs =>
                    batch_loop answers objectType association_results objectIds
                      (i + batchSize) (fullObjects ++ rs) w
                | None =>
                    batch_loop answers objectType association_results objectIds
                      (i + batchSize) fullObjects w
                end
            | Failed batchError =>
                batch_loop answers objectType association_results objectIds
                  (i + batchSize) fullObjects w
            end
        end
    | None => Return (Raw association_results) w
    end
  else Return (Full (mkAssociated association_results fullObjects)) w.

Definition empty_result : Resolution := Full (mkAssociated [] []).

(** [getAssociatedObjects]; [answers] are the answers of the
    list-associations capability still to come. *)
Fixpoint getAssociatedObjects_from (answers : list (Answer AssociationsResponse))
    (dealId objectType : string) (w : World) : Outcome Resolution :=
  match answers with
  | [] => Pending
  | answer :: answers =>
      let w := call (AssociationsGetAll dealId objectType)
                    (set_association_answers answers w) in
      match answer with
      | Ok associations_ =>
          match a_results associations_ with
          | Some (r :: rs) =>
              let objectIds := map toObjectId (r :: rs) in
              batch_loop (batch_answers w) objectType (r :: rs) objectIds 0 [] w
          | _ => Return empty_result w
          end
      | Failed error =>
          if token_expired error w then
            match refreshAccessToken w with
            | Return newToken w =>
                getAssociatedObjects_from answers dealId objectType
                  (setAccessToken newToken w)
            | Throw e w => Throw e w
            | Pending => Pending
            end
          else Return empty_result w
      end
  end.

Definition getAssociatedObjects (dealId objectType : string) : Js Resolution :=
  fun w => getAssociatedObjects_from (association_answers w) dealId objectType w.

Definition activityTypes : list string := ["notes"; "calls"; "meetings"; "emails"; "tasks"].

(** The [for (const type of activityTypes)] loop of [getDealActivities]. *)
Fixpoint resolve_types (types : list string) (dealId : string)
    (activity_types : gmap string Resolution) : Js (gmap string Resolution) :=
  match types with
  | [] => ret activity_types
  | type :: types =>
      let* results := getAssociatedObjects dealId type in
      resolve_types types dealId (<[type := results]> activity_types)
  end.

(** [totalActivities] is computed for the log line only and cannot raise:
    it is left out. *)
Definition getDealActivities (dealId : string) : Js ActivityRecord :=
  try_catch
    (fun w =>
       (let* activity_types := resolve_types activityTypes dealId ∅ in
        ret (mkActivities dealId (now w) None activity_types)) w)
    (fun error w =>
       Return
         (mkActivities dealId (now w) (Some (message error))
            (<["notes" := empty_result]>
               (<["calls" := empty_result]>
                  (<["meetings" := empty_result]>
                     (<["emails" := empty_result]>
                        (<["tasks" := empty_result]> ∅))))))
         w).

(** [data.associations && data.associations.length > 0] *)
Definition has_associations (data : Resolution) : bool :=
  match data with
  | Full r => 0 <? length (associations r)
  | Raw _ => false
  end.

(** [Object.values(activities.activity_types).some(...)] *)
Definition hasActivities (activities : ActivityRecord) : bool :=
  existsb has_associations (map snd (map_to_list (activity_types activities))).

(** One round of the [for (const deal of deals)] loop. *)
Definition export_deal (deal : Deal) : Js unit :=
  let* activities := getDealActivities (d_id deal) in
  if hasActivities activities then
    saveToFile (JsonActivities activities) ("activities/" +:+ d_id deal +:+ ".json")
  else ret tt.

Fixpoint export_deals (deals : list Deal) : Js unit :=
  match deals with
  | [] => ret tt
  | deal :: deals =>
      let* _ := export_deal deal in
      export_deals deals
  end.

Definition exportDealsAndActivities : Js unit :=
  try_catch
    (fun w =>
       (let* _ := ensureDirectoryExists (Name (cfg_outputDir (config w))) in
        let* _ := ensureDirectoryExists (Join (cfg_outputDir (config w)) "activities") in
        let* deals := getAllDeals in
        let* _ := saveToFile (JsonDeals deals) "deals.json" in
        export_deals deals) w)
    (fun error => ret tt).

End Sync.

(** ** Reading values back

    [checkExistingTokens] reads with patterns whose capture group needs at
    least one character, and turns the expiry into a number with
    [parseInt]. *)

(** A literal [key] followed by a non-empty capture, tried at the start of
    [s]. *)
Definition match_key_plus_here (key s : string) : option RegExpMatch :=
  match strip_prefix key s with
  | None => None
  | Some rest =>
      let (cap, after) := dot_star rest in
      match cap with
      | EmptyString => None
      | String _ _ => Some (mkMatch EmptyString (key +:+ cap) cap after)
      end
  end.

(** [s.match(pattern)] for such a pattern: the leftmost position at which
    the key is followed by a character of its line. *)
Fixpoint match_key_plus (key s : string) : option RegExpMatch :=
  match match_key_plus_here key s with
  | Some m => Some m
  | None =>
      match s with
      | EmptyString => None
      | String c s' =>
          match match_key_plus key s' with
          | Some m =>
              Some (mkMatch (String c (leftContext m)) (matched m) (capture1 m)
                      (rightContext m))
          | None => None
          end
      end
  end.

(** White space that [parseInt] skips, among the code units below 256. *)
Definition is_white_space (c : ascii) : bool :=
  let n := nat_of_ascii c in
  (9 <=? n) && (n <=? 13) || (n =? 32) || (n =? 160).

Fixpoint skip_white_space (s : string) : string :=
  match s with
  | EmptyString => EmptyString
  | String c s' => if is_white_space c then skip_white_space s' else s
  end.

(** The value of the leading decimal digits of [s], after [acc]. *)
Fixpoint digits_value (acc : Z) (s : string) : Z :=
  match s with
  | EmptyString => acc
  | String c s' =>
      if is_digit c
      then digits_value (10 * acc + Z.of_nat (nat_of_ascii c - 48)) s'
      else acc
  end.

(** [parseInt(s, 10)]; [None] is [NaN].  Numbers are integers here, as
    for [expiresAt]. *)
Definition parseInt (s : string) : option Z :=
  let s := skip_white_space s in
  let (sign, s) :=
    match s with
    | String c s' =>
        if Ascii.eqb c "-" then ((-1)%Z, s')
        else if Ascii.eqb c "+" then (1%Z, s')
        else (1%Z, s)
    | EmptyString => (1%Z, s)
    end in
  match s with
  | String c _ => if is_digit c then Some (sign * digits_value 0 s)%Z else None
  | EmptyString => None
  end.

(** ** The OAuth bootstrap script *)

Module OAuth.

(** The constants the script reads from the environment. *)
Record Constants := mkConstants {
  HUBSPOT_CLIENT_ID : option string;
  HUBSPOT_CLIENT_SECRET : option string;
  HUBSPOT_REDIRECT_URI : string
}.

(** The text synthesized when neither [.env] nor [.env.example] can be
    read. *)
Definition from_scratch (k : Constants) : string :=
  nl +:+ "HUBSPOT_CLIENT_ID=" +:+ interpolate (HUBSPOT_CLIENT_ID k) +:+ nl
  +:+ "HUBSPOT_CLIENT_SECRET=" +:+ interpolate (HUBSPOT_CLIENT_SECRET k) +:+ nl
  +:+ "HUBSPOT_REDIRECT_URI=" +:+ HUBSPOT_REDIRECT_URI k +:+ nl
  +:+ nl
  +:+ "# OAuth tokens" +:+ nl
  +:+ "HUBSPOT_ACCESS_TOKEN=" +:+ nl
  +:+ "HUBSPOT_REFRESH_TOKEN=" +:+ nl
  +:+ "HUBSPOT_TOKEN_EXPIRES_AT=" +:+ nl
  +:+ nl
  +:+ "# Configuration" +:+ nl
  +:+ "OUTPUT_DIR=./data" +:+ nl
  +:+ "BATCH_SIZE=100" +:+ nl.

Definition updateEnvFile (k : Constants) (tokens : Tokens) : Js unit :=
  try_catch
    (let* dotEnvContent :=
       try_catch (fs_readFile ".env")
         (fun error =>
            try_catch (fs_readFile ".env.example")
              (fun error => ret (from_scratch k))) in
     let dotEnvContent := update_token_values tokens dotEnvContent in
     fs_writeFile (Name ".env") (Text dotEnvContent))
    (fun error => ret tt).

(** What [checkExistingTokens] returns when it finds the three values;
    [None] as expiry is [NaN]. *)
Record ExistingTokens := mkExisting {
  ex_accessToken : string;
  ex_refreshToken : string;
  ex_expiresAt : option Z
}.

Definition checkExistingTokens : Js (option ExistingTokens) :=
  try_catch
    (let* dotEnvContent := fs_readFile ".env" in
     let accessToken := match_key_plus "HUBSPOT_ACCESS_TOKEN=" dotEnvContent in
     let refreshToken := match_key_plus "HUBSPOT_REFRESH_TOKEN=" dotEnvContent in
     let expiresAt := match_key_plus "HUBSPOT_TOKEN_EXPIRES_AT=" dotEnvContent in
     match accessToken, refreshToken, expiresAt with
     | Some a, Some r, Some e =>
         ret (Some (mkExisting (capture1 a) (capture1 r) (parseInt (capture1 e))))
     | _, _, _ => ret None
     end)
    (fun error => ret None).

(** [refreshAccessToken(refreshToken)] of the bootstrap script: [None] is
    [null]. *)
Definition refreshAccessToken (k : Constants) (refreshToken : string)
  : Js (option Tokens) :=
  try_catch
    (let* result :=
       tokensApi_create (HUBSPOT_CLIENT_ID k) (HUBSPOT_CLIENT_SECRET k)
         (Some refreshToken) in
     fun w =>
       let tokens :=
         mkTokens (res_accessToken result) (res_refreshToken result)
           (now w + res_expiresIn result * 1000) in
       (let* _ := updateEnvFile k tokens in
        ret (Some tokens)) w)
    (fun error => ret None).

(** How [main] ends: it returns, or it starts the listener on [PORT], whose
    callback opens the browser on the authorization page. *)
Inductive MainEnd :=
| Returned
| Listening (port : Z).

Definition PORT : Z := 3000.

(** [existingTokens.expiresAt < Date.now()]; a comparison with [NaN] is
    false. *)
Definition expired (existingTokens : ExistingTokens) (w : World) : bool :=
  match ex_expiresAt existingTokens with
  | Some t => (t <? now w)%Z
  | None => false
  end.

Definition main (k : Constants) : Js MainEnd :=
  let* existingTokens := checkExistingTokens in
  match existingTokens with
  | Some existingTokens =>
      fun w =>
        if expired existingTokens w then
          (let* refreshedTokens := refreshAccessToken k (ex_refreshToken existingTokens) in
           match refreshedTokens with
           | Some _ => ret Returned
           | None => ret (Listening PORT)
           end) w
        else ret Returned w
  | None => ret (Listening PORT)
  end.

End OAuth.

(** * Vocabulary of the properties *)

(** ** Observing a run *)

(** What a computation produced, without the world. *)
Definition value_of {A} (o : Outcome A) : option (A + Error) :=
  match o with
  | Return a _ => Some (inl a)
  | Throw e _ => Some (inr e)
  | Pending => None
  end.

Definition world_of {A} (o : Outcome A) : option World :=
  match o with
  | Return _ w => Some w
  | Throw _ w => Some w
  | Pending => None
  end.

(** A read, or a write of a text: what [updateEnvFile] does. *)
Definition is_fs_call (c : Call) : bool :=
  match c with
  | ReadFile _ | WriteFile _ (Text _) => true
  | _ => false
  end.

Definition is_token_call (c : Call) : bool :=
  match c with TokensCreate _ _ _ => true | _ => false end.

Definition is_association_call (c : Call) : bool :=
  match c with AssociationsGetAll _ _ => true | _ => false end.

Definition count_calls (p : Call -> bool) (cs : list Call) : nat :=
  length (filter (fun c => p c) cs).

(** The cursors of the list-deals requests among some calls, in order. *)
Definition page_cursors (cs : list Call) : list (option string) :=
  omap (fun c => match c with GetPage _ cursor _ => Some cursor | _ => None end) cs.

(** The list-associations requests among some calls, in order. *)
Definition association_requests (cs : list Call) : list (string * string) :=
  omap (fun c => match c with
                 | AssociationsGetAll dealId objectType => Some (dealId, objectType)
                 | _ => None
                 end) cs.

(** The id lists of the batched reads among some calls, in order. *)
Definition batch_inputs (cs : list Call) : list (list string) :=
  omap (fun c => match c with BatchRead _ inputs => Some inputs | _ => None end) cs.

(** The paths written among some calls, in order. *)
Definition written_paths (cs : list Call) : list Path :=
  omap (fun c => match c with WriteFile p _ => Some p | _ => None end) cs.

(** The activity records written among some calls, with their paths. *)
Definition activity_writes (cs : list Call) : list (Path * ActivityRecord) :=
  omap (fun c => match c with
                 | WriteFile p (JsonActivities activities) => Some (p, activities)
                 | _ => None
                 end) cs.

(** ** What a step leaves alone *)

(** A step that touches the file system only. *)
Record fs_step (w w' : World) : Prop := mk_fs_step {
  fs_config : config w' = config w;
  fs_bearer : bearer w' = bearer w;
  fs_now : now w' = now w;
  fs_fault_same : fs_fault w' = fs_fault w;
  fs_pages : page_answers w' = page_answers w;
  fs_associations : association_answers w' = association_answers w;
  fs_batches : batch_answers w' = batch_answers w;
  fs_tokens : token_answers w' = token_answers w;
  fs_files : is_Some (fs_fault w) -> files w' = files w;
  fs_calls : exists cs, calls w' = calls w ++ cs /\ forallb is_fs_call cs = true
}.

(** The world after a successful [refreshAccessToken] that received [r]. *)
Record refreshed (r : TokenResponse) (w w' : World) : Prop := mk_refreshed {
  rf_accessToken : cfg_accessToken (config w') = res_accessToken r;
  rf_refreshToken : cfg_refreshToken (config w') = res_refreshToken r;
  rf_expiresAt : cfg_tokenExpiresAt (config w') = Some (now w + res_expiresIn r * 1000)%Z;
  rf_batchSize : cfg_batchSize (config w') = cfg_batchSize (config w);
  rf_outputDir : cfg_outputDir (config w') = cfg_outputDir (config w);
  rf_bearer : bearer w' = bearer w;
  rf_now : now w' = now w;
  rf_fault : fs_fault w' = fs_fault w;
  rf_pages : page_answers w' = page_answers w;
  rf_associations : association_answers w' = association_answers w;
  rf_batches : batch_answers w' = batch_answers w;
  rf_tokens : token_answers w' = tail (token_answers w);
  rf_files : is_Some (fs_fault w) -> files w' = files w;
  rf_calls :
    exists cs,
      calls w' = calls w
                 ++ TokensCreate (cfg_clientId (config w)) (cfg_clientSecret (config w))
                      (cfg_refreshToken (config w)) :: cs
      /\ forallb is_fs_call cs = true
}.

(** A step that consumes batch answers only. *)
Record batch_step (w w' : World) : Prop := mk_batch_step {
  bs_config : config w' = config w;
  bs_bearer : bearer w' = bearer w;
  bs_now : now w' = now w;
  bs_files : files w' = files w;
  bs_fault : fs_fault w' = fs_fault w;
  bs_pages : page_answers w' = page_answers w;
  bs_associations : association_answers w' = association_answers w;
  bs_tokens : token_answers w' = token_answers w
}.

(** A step that writes no activity record and keeps the output
    directory. *)
Definition quiet (w w' : World) : Prop :=
  cfg_outputDir (config w') = cfg_outputDir (config w)
  /\ exists cs, calls w' = calls w ++ cs /\ activity_writes cs = [].

(** ** Authentication expiry *)

(** [error.message && error.message.includes('401')] *)
Definition auth_expired (e : Error) : bool :=
  negb (String.eqb (message e) EmptyString) && includes "401" (message e).

Definition is_401 {A} (a : Answer A) : bool :=
  match a with
  | Failed e => auth_expired e
  | Ok _ => false
  end.


Definition count_401 {A} (answers : list (Answer A)) : nat :=
  length (filter (fun a => is_401 a) answers).

(** A token answer after which a refresh token is still configured. *)
Definition good_token (a : Answer TokenResponse) : bool :=
  match a with
  | Ok r => truthy (res_refreshToken r)
  | Failed _ => false
  end.

(** A refresh token is configured and the next [n] refreshes succeed. *)
Definition refresh_ready (n : nat) (w : World) : Prop :=
  truthy (cfg_refreshToken (config w)) = true
  /\ n <= length (token_answers w)
  /\ forallb good_token (take n (token_answers w)) = true.

(** ** Pages *)

(** The cursor a page hands to the next request. *)
Definition cursor_after (response : PageResponse) : option string :=
  after <$> Sync.next_page response.

Definition page_requests (w : World) (cursors : list (option string)) : list Call :=
  map (fun c => GetPage (cfg_batchSize (config w)) c (bearer w)) cursors.

(** ** Chunks *)

(** Consecutive chunks of at most 100: chunk [k] of a list holds its
    elements [100 * k] to [100 * k + 99]. *)
Definition chunk_count (n : nat) : nat := (n + 99) / 100.

Definition chunk {A} (k : nat) (l : list A) : list A := take 100 (drop (100 * k) l).

Definition chunks {A} (l : list A) : list (list A) :=
  map (fun k => chunk k l) (seq 0 (chunk_count (length l))).

(** The objects a batched read contributes: those of a successful answer. *)
Definition read_objects (a : Answer BatchResponse) : list CrmObject :=
  match a with
  | Ok batchObjects => default [] (b_results batchObjects)
  | Failed _ => []
  end.

(** The batched reads an association answer calls for. *)
Definition batch_need (a : Answer AssociationsResponse) : nat :=
  match a with
  | Ok r => chunk_count (length (default [] (a_results r)))
  | Failed _ => 0
  end.

(** The vendor answers at hand suffice for [k] calls of
    [getAssociatedObjects] on the association answers [answers]: besides
    the authentication-expiry failures there are [k] answers, every such
    failure can be followed by a token exchange, and every listing by its
    batched reads. *)
Definition suffices_from (k : nat) (answers : list (Answer AssociationsResponse))
    (w : World) : Prop :=
  k + count_401 answers <= length answers
  /\ count_401 answers <= length (token_answers w)
  /\ sum_list (map batch_need answers) <= length (batch_answers w).

Definition suffices (k : nat) (w : World) : Prop :=
  suffices_from k (association_answers w) w.

(** ** Activity records *)

Definition five_keys : gset string := list_to_set Sync.activityTypes.

(** The record has an engagement-type entry with a non-empty
    [associations] list. *)
Definition has_engagement (activities : ActivityRecord) : Prop :=
  exists (type : string) (r : AssociatedObjects),
    activity_types activities !! type = Some (Full r) /\ associations r <> [].

Definition activity_path (deal : Deal) (w : World) : Path :=
  Join (cfg_outputDir (config w)) ("activities/" +:+ d_id deal +:+ ".json").

(** The records [getDealActivities] returns in the rounds of the export
    loop, deal after deal. *)
Fixpoint records_of_run (deals : list Deal) (w : World) : list ActivityRecord :=
  match deals with
  | [] => []
  | deal :: deals =>
      match Sync.getDealActivities (d_id deal) w with
      | Return activities _ =>
          activities
          :: match Sync.export_deal deal w with
             | Return _ w' => records_of_run deals w'
             | _ => []
             end
      | _ => []
      end
  end.

(** The file of a record: [activities/{deal_id}.json] under the output
    directory. *)
Definition record_file (w : World) (activities : ActivityRecord)
  : Path * ActivityRecord :=
  (Join (cfg_outputDir (config w)) ("activities/" +:+ deal_id activities +:+ ".json"),
   activities).

(** ** The text of [.env] *)



(** A text without line feed. *)
Fixpoint one_line (s : string) : bool :=
  match s with
  | EmptyString => true
  | String c s' => negb (Ascii.eqb c LF) && one_line s'
  end.

Definition token_keys : list string :=
  ["HUBSPOT_ACCESS_TOKEN="; "HUBSPOT_REFRESH_TOKEN="; "HUBSPOT_TOKEN_EXPIRES_AT="].





(** ** Sample worlds *)

Definition e401 : Error := mkError "HTTP-Code: 401 Unauthorized" None.
Definition e500 : Error := mkError "HTTP-Code: 500 Internal Server Error" None.
Definition EACCES : Error := mkError "EACCES: permission denied" (Some "EACCES").

Definition plain_config : Config :=
  mkConfig (Some "tok0") (Some "ref0") (Some "cid") (Some "sec") None "./data" 100 true.

Definition page1 : PageResponse :=
  mkPage [mkDeal "1" []; mkDeal "2" []] (Some (mkPaging (Some (mkNext "c1")))).
Definition page2 : PageResponse := mkPage [mkDeal "3" []] None.

(** Two pages, answered at once. *)
Definition world_two_pages : World :=
  mkWorld plain_config (Some "tok0") 1000 ∅ None [Ok page1; Ok page2] [] [] [] [].

Definition dotenv_before : string :=
  "HUBSPOT_CLIENT_ID=cid" +:+ nl
  +:+ "HUBSPOT_ACCESS_TOKEN=tok0" +:+ nl
  +:+ "HUBSPOT_REFRESH_TOKEN=ref0" +:+ nl
  +:+ "HUBSPOT_TOKEN_EXPIRES_AT=900" +:+ nl
  +:+ "OUTPUT_DIR=./data" +:+ nl.


Definition new_tokens : Tokens := mkTokens (Some "tok1") (Some "ref1") 1801000.

(** A world with this [.env] and no vendor answer. *)
Definition world_dotenv (content : string) : World :=
  mkWorld plain_config (Some "tok0") 1000 (<[".env" := content]> ∅) None [] [] [] [] [].

Definition oauth_constants : OAuth.Constants :=
  OAuth.mkConstants (Some "cid") (Some "sec") "http://localhost:3000/oauth-callback".

(** Page one, then page two fails once with a 401 and is answered on the
    retry; one token refresh is available. *)
Definition world_401_on_page2 : World :=
  mkWorld plain_config (Some "tok0") 1000 (<[".env" := dotenv_before]> ∅) None
    [Ok page1; Failed e401; Ok page2] [] []
    [Ok (mkTokenResponse (Some "tok1") (Some "ref1") 1800)] [].

(** The first page fails twice with a 401 before it is answered; two token
    refreshes are available. *)
Definition world_two_401 : World :=
  mkWorld plain_config (Some "tok0") 1000 ∅ None
    [Failed e401; Failed e401; Ok page2] [] []
    [Ok (mkTokenResponse (Some "tok1") (Some "ref1") 1800);
     Ok (mkTokenResponse (Some "tok2") (Some "ref2") 1800)] [].

(** The token exchange succeeds and [.env] cannot be written. *)
Definition world_write_fails : World :=
  mkWorld plain_config (Some "tok0") 1000 (<[".env" := dotenv_before]> ∅) (Some EACCES)
    [] [] []
    [Ok (mkTokenResponse (Some "tok1") (Some "ref1") 1800)] [].

(** Deal [d1] with 250 associated notes, and the three batched reads
    answered; in [world_250_one_failure] the second read fails. *)
Definition note_ids : list string := map (fun k => number_to_string (Z.of_nat k)) (seq 1 250).

Definition associations_250 : list Association :=
  map (fun i => mkAssociation i ["deal_to_note"]) note_ids.

Definition notes_of (ids : list string) : list CrmObject :=
  map (fun i => mkObject i [("hs_note_body", "note " +:+ i)]) ids.

Definition world_250 : World :=
  mkWorld plain_config (Some "tok0") 1000 ∅ None []
    [Ok (mkAssociations (Some associations_250))]
    [Ok (mkBatch (Some (notes_of (take 100 note_ids))));
     Ok (mkBatch (Some (notes_of (take 100 (drop 100 note_ids)))));
     Ok (mkBatch (Some (notes_of (drop 200 note_ids))))]
    [] [].

Definition world_250_one_failure : World :=
  mkWorld plain_config (Some "tok0") 1000 ∅ None []
    [Ok (mkAssociations (Some associations_250))]
    [Ok (mkBatch (Some (notes_of (take 100 note_ids))));
     Failed e500;
     Ok (mkBatch (Some (notes_of (drop 200 note_ids))))]
    [] [].

(** Deal [d1] has one note and the batched read of it fails with a 401. *)
Definition world_batch_401 : World :=
  mkWorld plain_config (Some "tok0") 1000 ∅ None []
    [Ok (mkAssociations (Some [mkAssociation "n1" []]))]
    [Failed e401]
    [Ok (mkTokenResponse (Some "tok1") (Some "ref1") 1800)] [].

(** Deal [d1]: the notes listing is empty, the calls listing fails with a
    401 and the token exchange that follows fails. *)
Definition world_refresh_fails : World :=
  mkWorld plain_config (Some "tok0") 1000 ∅ None []
    [Ok (mkAssociations None); Failed e401;
     Ok (mkAssociations None); Ok (mkAssociations None);
     Ok (mkAssociations None); Ok (mkAssociations None)]
    [] [Failed e500] [].


(** Three deals: A has two notes, B has no activity, C has one call. *)
Definition no_listing : Answer AssociationsResponse := Ok (mkAssociations (Some [])).

Definition world_three_deals : World :=
  mkWorld plain_config (Some "tok0") 1000 ∅ None
    [Ok (mkPage [mkDeal "A" []; mkDeal "B" []; mkDeal "C" []] None)]
    [Ok (mkAssociations (Some [mkAssociation "n1" []; mkAssociation "n2" []]));
     no_listing; no_listing; no_listing; no_listing;
     no_listing; no_listing; no_listing; no_listing; no_listing;
     no_listing; Ok (mkAssociations (Some [mkAssociation "k1" []]));
     no_listing; no_listing; no_listing]
    [Ok (mkBatch (Some [mkObject "n1" []; mkObject "n2" []]));
     Ok (mkBatch (Some [mkObject "k1" []]))]
    [] [].

(** ** More vocabulary *)

(** The value is the record [{ associations, objects }]. *)
Definition is_record (data : Resolution) : Prop :=
  match data with
  | Full _ => True
  | Raw _ => False
  end.

(** ** The entries of [.env] *)

(** [ls.join('\n')] *)
Fixpoint unlines (ls : list string) : string :=
  match ls with
  | [] => EmptyString
  | l :: ls' =>
      match ls' with
      | [] => l
      | _ :: _ => l +:+ nl +:+ unlines ls'
      end
  end.

(** What follows the first line, when [ls] are the lines after it. *)
Definition after_line (ls : list string) : string :=
  match ls with
  | [] => EmptyString
  | _ :: _ => nl +:+ unlines ls
  end.


(** A character of a value: no [=] and no line terminator. *)
Definition value_char (c : ascii) : bool :=
  negb (Ascii.eqb c "=") && negb (is_line_terminator c).

Fixpoint value_text (s : string) : bool :=
  match s with
  | EmptyString => true
  | String c s' => value_char c && value_text s'
  end.








(** Every line that mentions [key] is the key alone, with no value. *)
Definition without_value (key content : string) : bool :=
  forallb (fun l => implb (includes key l) (String.eqb l key)) (lines content).

(** The start of what follows a line: nothing, or a line feed. *)
Definition line_end (t : string) : Prop :=
  t = EmptyString \/ exists y, t = String LF y.

(** [m] with [x] before it. *)
Definition shift (x : string) (m : RegExpMatch) : RegExpMatch :=
  mkMatch (x +:+ leftContext m) (matched m) (capture1 m) (rightContext m).

(** ** More sample worlds *)

(** Page one is answered, page two fails with a server error. *)
Definition world_500_on_page2 : World :=
  mkWorld plain_config (Some "tok0") 1000 (<[".env" := dotenv_before]> ∅) None
    [Ok page1; Failed e500; Ok page2] [] [] [] [].

(** Page two fails with a 401 and the token exchange fails. *)
Definition world_401_refresh_fails : World :=
  mkWorld plain_config (Some "tok0") 1000 (<[".env" := dotenv_before]> ∅) None
    [Ok page1; Failed e401; Ok page2] [] [] [Failed e500] [].

(** Private-app mode: an access token and no refresh token.  The notes
    listing of deal [d1] fails with a 401. *)
Definition private_app_config : Config :=
  mkConfig (Some "pat") None None None None "./data" 100 true.

Definition world_private_app : World :=
  mkWorld private_app_config (Some "pat") 1000 ∅ None []
    [Failed e401; no_listing; no_listing; no_listing; no_listing]
    [] [Ok (mkTokenResponse (Some "tok1") (Some "ref1") 1800)] [].

(** Deal [d1] has one note; the calls listing fails with a 401 and the token
    exchange that follows fails. *)
Definition world_note_then_refresh_fails : World :=
  mkWorld plain_config (Some "tok0") 1000 ∅ None []
    [Ok (mkAssociations (Some [mkAssociation "n1" []])); Failed e401;
     no_listing; no_listing; no_listing]
    [Ok (mkBatch (Some [mkObject "n1" []]))]
    [Failed e500] [].

(** The directories cannot be made. *)
Definition world_no_directory : World :=
  mkWorld plain_config (Some "tok0") 1000 ∅ (Some EACCES) [Ok page2] [] [] [] [].

(** A template: the three keys without values. *)
Definition dotenv_example : string :=
  "HUBSPOT_CLIENT_ID=" +:+ nl
  +:+ "HUBSPOT_ACCESS_TOKEN=" +:+ nl
  +:+ "HUBSPOT_REFRESH_TOKEN=" +:+ nl
  +:+ "HUBSPOT_TOKEN_EXPIRES_AT=" +:+ nl.

(** No [.env], and this [.env.example]. *)
Definition world_only_example : World :=
  mkWorld plain_config (Some "tok0") 1000 (<[".env.example" := dotenv_example]> ∅) None
    [] [] [] [] [].

(** The expiry in [.env] is not a number. *)
Definition dotenv_bad_expiry : string :=
  "HUBSPOT_ACCESS_TOKEN=tok0" +:+ nl
  +:+ "HUBSPOT_REFRESH_TOKEN=ref0" +:+ nl
  +:+ "HUBSPOT_TOKEN_EXPIRES_AT=tomorrow" +:+ nl.

(** The tokens in [.env] are expired and the token exchange fails. *)
Definition world_expired_refresh_fails : World :=
  mkWorld plain_config (Some "tok0") 1000 (<[".env" := dotenv_before]> ∅) None
    [] [] [] [Failed e500] [].


(** An [.env] as copied from the template: the token keys have no value. *)
Definition world_template : World :=
  mkWorld plain_config None 1000 (<[".env" := dotenv_example]> ∅) None [] [] [] [] [].

(** * Properties *)

(** ** The file system and the token refresh *)

(** Open the sequencing of a computation. *)
Ltac unfold_js :=
  unfold try_catch, bind, ret, fs_readFile, fs_writeFile, fs_mkdir, tokensApi_create in *.

Lemma fs_step_refl w : fs_step w w.
Proof. split; try done. exists []. by rewrite app_nil_r. Qed.

Lemma updateEnvFile_frame (tokens : Tokens) (w : World) :
  exists w', Sync.updateEnvFile tokens w = Return tt w' /\ fs_step w w'.
Proof.
  unfold Sync.updateEnvFile. unfold_js.
  cbn. destruct (files w !! ".env") as [content|] eqn:Hfile.
  - destruct (fs_fault w) as [e|] eqn:Hfault; cbn; rewrite Hfault.
    + eexists. split; [done|]. split; try done; cbn.
      eexists. split; [by rewrite <- app_assoc|done].
    + eexists. split; [done|]. split; try done; cbn.
      * rewrite Hfault. by intros [? ?].
      * eexists. split; [by rewrite <- app_assoc|done].
  - eexists. split; [done|]. split; try done. by eexists.
Qed.

Lemma refreshAccessToken_cases (w : World) :
  match token_answers w with
  | [] => Sync.refreshAccessToken w = Pending
  | Failed e :: ts =>
      Sync.refreshAccessToken w
      = Throw e (call (TokensCreate (cfg_clientId (config w)) (cfg_clientSecret (config w))
                         (cfg_refreshToken (config w)))
                      (set_token_answers ts w))
  | Ok r :: ts =>
      exists w', Sync.refreshAccessToken w = Return (res_accessToken r) w' /\ refreshed r w w'
  end.
Proof.
  unfold Sync.refreshAccessToken. unfold_js.
  destruct (token_answers w) as [|[r|e] ts] eqn:Htok; [done| |done].
  set (tokens := mkTokens _ _ _). set (w1 := set_config _ _).
  destruct (updateEnvFile_frame tokens w1) as (w' & -> & Hfs).
  exists w'. split; [done|].
  destruct Hfs as [Hc Hb Hn Hf Hp Ha Hba Ht Hfi (cs & Hcs & Hfs)].
  split; rewrite ?Hc, ?Hb, ?Hn, ?Hf, ?Hp, ?Ha, ?Hba, ?Ht; try done.
  - by rewrite Htok.
  - exists cs. split; [|done]. rewrite Hcs. cbn. by rewrite <- app_assoc.
Qed.

Lemma page_cursors_fs (cs : list Call) :
  forallb is_fs_call cs = true -> page_cursors cs = [].
Proof.
  induction cs as [|c cs IH]; [done|]. cbn. intros [Hc Hcs]%andb_prop.
  unfold page_cursors in *. cbn. destruct c; try done; by apply IH.
Qed.

(** ** Pagination *)

Lemma getAllDeals_loop_pages (pre : list PageResponse) :
  forall (last : PageResponse) (rest : list (Answer PageResponse))
         (after_ : option string) (deals : list Deal) (w : World),
    Forall (fun r => is_Some (Sync.next_page r)) pre ->
    Sync.next_page last = None ->
    exists w',
      Sync.getAllDeals_loop (map Ok pre ++ Ok last :: rest) after_ deals w
      = Return (deals ++ concat (map results (pre ++ [last]))) w'
      /\ page_answers w' = rest
      /\ calls w' = calls w ++ page_requests w (after_ :: map cursor_after pre)
      /\ config w' = config w /\ bearer w' = bearer w.
Proof.
  induction pre as [|p pre IH]; intros last rest after_ deals w Hpre Hlast.
  - cbn. rewrite Hlast. eexists. split; [by rewrite app_nil_r|done].
  - apply Forall_cons in Hpre as [[n Hn] Hpre].
    cbn [map app Sync.getAllDeals_loop]. rewrite Hn.
    set (w1 := call _ _).
    destruct (IH last rest (Some (after n)) (deals ++ results p) w1 Hpre Hlast)
      as (w' & Hrun & Hrest & Hcalls & Hcfg & Hb).
    exists w'. rewrite Hrun. split; [|split; [done|split; [|done]]].
    + f_equal. cbn. by rewrite <- !app_assoc.
    + rewrite Hcalls. cbn. rewrite <- app_assoc. cbn.
      unfold cursor_after at 2. by rewrite Hn.
Qed.

Lemma getAllDeals_loop_awaits (pre : list PageResponse) :
  forall (after_ : option string) (deals : list Deal) (w : World),
    Forall (fun r => is_Some (Sync.next_page r)) pre ->
    Sync.getAllDeals_loop (map Ok pre) after_ deals w = Pending.
Proof.
  induction pre as [|p pre IH]; intros after_ deals w Hpre; [done|].
  apply Forall_cons in Hpre as [[n Hn] Hpre].
  cbn. rewrite Hn. by apply IH.
Qed.

(** C1. For every pagination sequence, pages with a next cursor followed by
    a page without one, [getAllDeals] returns the concatenation of the
    pages' results in page order; it consumes the answers up to the first
    page that lacks [paging.next] and no further, requesting each cursor
    once, and is still awaiting as long as every page had a next cursor.
    When no deal id is delivered twice, the result has no duplicate id. *)
Theorem getAllDeals_concatenates_pages :
  forall (w : World) (pre : list PageResponse) (last : PageResponse)
         (rest : list (Answer PageResponse)),
    page_answers w = map Ok pre ++ Ok last :: rest ->
    Forall (fun r => is_Some (Sync.next_page r)) pre ->
    Sync.next_page last = None ->
    (exists w',
        Sync.getAllDeals w = Return (concat (map results (pre ++ [last]))) w'
        /\ page_answers w' = rest
        /\ calls w' = calls w ++ page_requests w (None :: map cursor_after pre))
    /\ Sync.getAllDeals (set_page_answers (map Ok pre) w) = Pending
    /\ (NoDup (map d_id (concat (map results (pre ++ [last])))) ->
        forall deals w', Sync.getAllDeals w = Return deals w' -> NoDup (map d_id deals)).
Proof.
  intros w pre last rest Hw Hpre Hlast.
  destruct (getAllDeals_loop_pages pre last rest None [] w Hpre Hlast)
    as (w' & Hrun & Hrest & Hcalls & _).
  unfold Sync.getAllDeals. rewrite Hw.
  split; [|split].
  - exists w'. by rewrite Hrun.
  - cbn. by apply getAllDeals_loop_awaits.
  - intros Hnodup deals w'' Hret. rewrite Hrun in Hret.
    by injection Hret as <- _.
Qed.

Lemma getAllDeals_concatenates_pages_witness :
  exists w',
    Sync.getAllDeals world_two_pages
    = Return [mkDeal "1" []; mkDeal "2" []; mkDeal "3" []] w'
    /\ page_answers w' = []
    /\ calls w' = [GetPage 100 None (Some "tok0"); GetPage 100 (Some "c1") (Some "tok0")].
Proof.
  destruct (getAllDeals_concatenates_pages world_two_pages [page1] page2 []) as [H _].
  - reflexivity.
  - repeat constructor. by eexists.
  - reflexivity.
  - exact H.
Defined.

(** ** Authentication expiry while listing deals *)

Lemma token_expired_auth (e : Error) (w : World) :
  Sync.token_expired e w = auth_expired e && truthy (cfg_refreshToken (config w)).
Proof. done. Qed.

Lemma refresh_ready_step (n : nat) (w : World) :
  refresh_ready (S n) w ->
  exists r w',
    Sync.refreshAccessToken w = Return (res_accessToken r) w'
    /\ refreshed r w w'
    /\ forall tok, refresh_ready n (setAccessToken tok w').
Proof.
  intros (Hcfg & Hlen & Hgood).
  pose proof (refreshAccessToken_cases w) as Hcases.
  destruct (token_answers w) as [|[r|e] ts] eqn:Htok; cbn in Hlen, Hgood; [lia| |done].
  destruct Hcases as (w' & Hrun & Hw'). exists r, w'. split; [done|]. split; [done|].
  apply andb_prop in Hgood as [Hr Hts].
  intros tok. unfold refresh_ready. cbn.
  rewrite (rf_refreshToken _ _ _ Hw'), (rf_tokens _ _ _ Hw'), Htok. cbn.
  split; [done|]. split; [lia|done].
Qed.


Lemma page_cursors_app (cs1 cs2 : list Call) :
  page_cursors (cs1 ++ cs2) = page_cursors cs1 ++ page_cursors cs2.
Proof. apply omap_app. Qed.

Lemma getAllDeals_loop_retry_cursor (answers : list (Answer PageResponse)) :
  forall (after_ : option string) (deals : list Deal) (w w' : World),
    world_of (Sync.getAllDeals_loop answers after_ deals w) = Some w' ->
    exists cs,
      calls w' = calls w ++ cs
      /\ head (page_cursors cs) = Some after_
      /\ forall i e c,
          answers !! i = Some (Failed e) ->
          page_cursors cs !! S i = Some c ->
          page_cursors cs !! i = Some c.
Proof.
  induction answers as [|[response|e] answers IH]; intros after_ deals w w' Hw'; [done| |].
  - cbn [Sync.getAllDeals_loop] in Hw'.
    destruct (Sync.next_page response) as [n|].
    + apply IH in Hw' as (cs & Hcs & Hhd & Hretry).
      exists (GetPage (cfg_batchSize (config w)) after_ (bearer w) :: cs).
      split; [by rewrite Hcs; cbn; rewrite <- app_assoc|]. split; [done|].
      intros [|i] e c Hi Hc; [done|]. cbn in *. by eapply Hretry.
    + injection Hw' as <-. eexists [_]. split; [done|]. split; [done|].
      by intros [|i] e c Hi Hc.
  - cbn [Sync.getAllDeals_loop] in Hw'.
    set (w1 := call _ _) in Hw'.
    destruct (Sync.token_expired e w1).
    + pose proof (refreshAccessToken_cases w1) as Hcases.
      destruct (token_answers w1) as [|[r|e'] ts].
      * by rewrite Hcases in Hw'.
      * destruct Hcases as (w2 & Hrun & Hw2). rewrite Hrun in Hw'.
        apply IH in Hw' as (cs & Hcs & Hhd & Hretry).
        destruct (rf_calls _ _ _ Hw2) as (fs & Hfs & Hfs_only).
        exists (GetPage (cfg_batchSize (config w)) after_ (bearer w)
                  :: TokensCreate (cfg_clientId (config w1))
                       (cfg_clientSecret (config w1))
                       (cfg_refreshToken (config w1)) :: fs ++ cs).
        split; [|split].
        -- rewrite Hcs. cbn. rewrite Hfs. cbn. by rewrite <- !app_assoc.
        -- done.
        -- assert (Heq : page_cursors (GetPage (cfg_batchSize (config w)) after_ (bearer w)
                            :: TokensCreate (cfg_clientId (config w1))
                                 (cfg_clientSecret (config w1))
                                 (cfg_refreshToken (config w1)) :: fs ++ cs)
                          = after_ :: page_cursors cs).
           { change (?a :: ?b :: fs ++ cs) with ([a; b] ++ fs ++ cs).
             rewrite !page_cursors_app, (page_cursors_fs fs) by done. done. }
           rewrite Heq. clear Heq.
           intros [|i] e0 c Hi Hc; cbn in *.
           ++ destruct (page_cursors cs); cbn in *; congruence.
           ++ by eapply Hretry.
      * rewrite Hcases in Hw'. injection Hw' as <-.
        eexists [_; _]. split; [by cbn; rewrite <- app_assoc|]. split; [done|].
        by intros [|i] e0 c Hi Hc.
    + injection Hw' as <-. eexists [_]. split; [done|]. split; [done|].
      by intros [|i] e0 c Hi Hc.
Qed.

Lemma count_calls_app (p : Call -> bool) (cs1 cs2 : list Call) :
  count_calls p (cs1 ++ cs2) = count_calls p cs1 + count_calls p cs2.
Proof. unfold count_calls. by rewrite filter_app, length_app. Qed.

Lemma count_calls_cons (p : Call -> bool) (c : Call) (cs : list Call) :
  count_calls p (c :: cs) = (if p c then 1 else 0) + count_calls p cs.
Proof.
  unfold count_calls. destruct (p c) eqn:Hc.
  - by rewrite filter_cons_True by (by rewrite Hc).
  - by rewrite filter_cons_False by (rewrite Hc; cbn; tauto).
Qed.

Lemma count_calls_fs (p : Call -> bool) (cs : list Call) :
  (forall c, is_fs_call c = true -> p c = false) ->
  forallb is_fs_call cs = true -> count_calls p cs = 0.
Proof.
  intros Hp. induction cs as [|c cs IH]; [done|]. cbn [forallb].
  intros [Hc Hcs]%andb_prop. rewrite count_calls_cons, (Hp c Hc). by apply IH.
Qed.

Lemma count_401_cons {A} (a : Answer A) (answers : list (Answer A)) :
  count_401 (a :: answers) = (if is_401 a then 1 else 0) + count_401 answers.
Proof.
  unfold count_401. destruct (is_401 a) eqn:Ha.
  - by rewrite filter_cons_True by (by rewrite Ha).
  - by rewrite filter_cons_False by (rewrite Ha; cbn; tauto).
Qed.




Example getAllDeals_401_on_page2 :
  value_of (Sync.getAllDeals world_401_on_page2)
  = Some (inl [mkDeal "1" []; mkDeal "2" []; mkDeal "3" []])
  /\ (page_cursors <$> (calls <$> world_of (Sync.getAllDeals world_401_on_page2)))
     = Some [None; Some "c1"; Some "c1"]
  /\ (bearer <$> world_of (Sync.getAllDeals world_401_on_page2)) = Some (Some "tok1")
  /\ (count_calls is_token_call <$> (calls <$> world_of (Sync.getAllDeals world_401_on_page2)))
     = Some 1.
Proof. vm_compute. done. Qed.

(** ** Batched reads *)

Lemma chunk_count_lt (j n : nat) : 100 * j < n <-> j < chunk_count n.
Proof.
  unfold chunk_count. split; intros H.
  - apply Nat.div_le_lower_bound; lia.
  - assert (100 * ((n + 99) / 100) <= n + 99) by (apply Nat.Div0.mul_div_le). lia.
Qed.

Section Chunks.

Context {A : Type}.
Implicit Types l : list A.

Lemma concat_chunks_from l (m : nat) :
  forall j, concat (map (fun k => chunk k l) (seq j m)) = take (100 * m) (drop (100 * j) l).
Proof.
  induction m as [|m IH]; intros j.
  - by rewrite Nat.mul_0_r.
  - cbn [seq map concat]. rewrite IH. unfold chunk.
    replace (100 * S m) with (100 + 100 * m) by lia.
    rewrite <- take_take_drop, drop_drop. do 3 f_equal. lia.
Qed.

Lemma concat_chunks l : concat (chunks l) = l.
Proof.
  unfold chunks. rewrite concat_chunks_from. cbn [Nat.mul drop].
  apply take_ge. unfold chunk_count.
  pose proof (Nat.div_mod_eq (length l + 99) 100).
  pose proof (Nat.mod_upper_bound (length l + 99) 100). lia.
Qed.

Lemma length_chunk l (k : nat) :
  length (chunk k l) = 100 `min` (length l - 100 * k).
Proof. unfold chunk. by rewrite length_take, length_drop. Qed.

Lemma chunks_bounded l :
  Forall (fun c => 0 < length c <= 100) (chunks l).
Proof.
  unfold chunks. apply Forall_map, Forall_forall. intros k Hk.
  apply elem_of_seq in Hk as [_ Hk]. cbn in Hk. apply chunk_count_lt in Hk.
  cbn beta. rewrite length_chunk. lia.
Qed.

Lemma chunks_250 l :
  length l = 250 -> map length (chunks l) = [100; 100; 50].
Proof.
  intros Hl. unfold chunks. rewrite Hl.
  change (chunk_count 250) with 3. cbn [seq map].
  by rewrite !length_chunk, Hl.
Qed.

Lemma slice_chunk l (j : nat) :
  Sync.slice (100 * j) (100 * j + Sync.batchSize) l = chunk j l.
Proof.
  unfold Sync.slice, chunk, Sync.batchSize. f_equal. lia.
Qed.

End Chunks.

Section BatchLoop.

Variables (objectType : string) (api : BatchApi).
Variables (rs : list Association) (ids : list string).
Hypothesis recognized : Sync.batch_api objectType = Some api.

(** The loop from chunk [j] on, with [m] chunks left and as many answers
    at hand. *)
Lemma batch_loop_chunks (m : nat) :
  forall (j : nat) (answers : list (Answer BatchResponse))
         (fullObjects : list CrmObject) (w : World),
    chunk_count (length ids) = j + m ->
    m <= length answers ->
    batch_answers w = answers ->
    exists w',
      Sync.batch_loop answers objectType rs ids (100 * j) fullObjects w
      = Return (Full (mkAssociated rs
                        (fullObjects ++ concat (map read_objects (take m answers))))) w'
      /\ batch_answers w' = drop m answers
      /\ calls w' = calls w ++ map (fun k => BatchRead api (chunk k ids)) (seq j m)
      /\ batch_step w w'.
Proof.
  induction m as [|m IH]; intros j answers fullObjects w Hcount Hlen Hw.
  - assert (Hdone : (100 * j <? length ids) = false).
    { apply Nat.ltb_ge. destruct (decide (100 * j < length ids)) as [Hlt|]; [|lia].
      apply chunk_count_lt in Hlt. lia. }
    destruct answers as [|a answers]; cbn [Sync.batch_loop]; rewrite Hdone;
      (exists w; cbn; rewrite !app_nil_r; by split; [|split; [|split]]).
  - assert (Hmore : (100 * j <? length ids) = true).
    { apply Nat.ltb_lt, chunk_count_lt. lia. }
    destruct answers as [|a answers]; [cbn in Hlen; lia|].
    cbn [Sync.batch_loop]. rewrite Hmore, recognized, slice_chunk.
    replace (100 * j + Sync.batchSize) with (100 * S j) by (unfold Sync.batchSize; lia).
    set (w1 := call _ _).
    assert (Hstep :
      forall full,
        exists w',
          Sync.batch_loop answers objectType rs ids (100 * S j) full w1
          = Return (Full (mkAssociated rs
                            (full ++ concat (map read_objects (take m answers))))) w'
          /\ batch_answers w' = drop m answers
          /\ calls w' = calls w1 ++ map (fun k => BatchRead api (chunk k ids)) (seq (S j) m)
          /\ batch_step w1 w').
    { intros full. apply IH; [lia|cbn in Hlen; lia|done]. }
    assert (Hfinish :
      forall full objs,
        (exists w',
          Sync.batch_loop answers objectType rs ids (100 * S j) full w1
          = Return (Full (mkAssociated rs
                            (full ++ concat (map read_objects (take m answers))))) w'
          /\ batch_answers w' = drop m answers
          /\ calls w' = calls w1 ++ map (fun k => BatchRead api (chunk k ids)) (seq (S j) m)
          /\ batch_step w1 w') ->
        full = fullObjects ++ objs ->
        exists w',
          Sync.batch_loop answers objectType rs ids (100 * S j) full w1
          = Return (Full (mkAssociated rs
               (fullObjects ++ objs ++ concat (map read_objects (take m answers))))) w'
          /\ batch_answers w' = drop m answers
          /\ calls w' = calls w ++ map (fun k => BatchRead api (chunk k ids)) (seq j (S m))
          /\ batch_step w w').
    { intros full objs (w' & Hrun & Hrest & Hcalls & Hframe) ->.
      exists w'. rewrite Hrun, <- app_assoc. split; [done|]. split; [done|]. split.
      - rewrite Hcalls. cbn. by rewrite <- app_assoc.
      - destruct Hframe. by split. }
    cbn [take map concat read_objects drop].
    destruct a as [[[objs|]]|e]; cbn [b_results default].
    + apply Hfinish; [apply Hstep|done].
    + apply (Hfinish fullObjects []); [apply Hstep|by rewrite app_nil_r].
    + apply (Hfinish fullObjects []); [apply Hstep|by rewrite app_nil_r].
Qed.

End BatchLoop.

Lemma getAssociatedObjects_resolves (w : World) (dealId objectType : string)
    (api : BatchApi) (r : Association) (rs : list Association)
    (answers : list (Answer AssociationsResponse)) :
  Sync.batch_api objectType = Some api ->
  association_answers w = Ok (mkAssociations (Some (r :: rs))) :: answers ->
  chunk_count (length (r :: rs)) <= length (batch_answers w) ->
  exists w',
    Sync.getAssociatedObjects dealId objectType w
    = Return (Full (mkAssociated (r :: rs)
                      (concat (map read_objects
                                 (take (chunk_count (length (r :: rs))) (batch_answers w))))))
             w'
    /\ batch_answers w' = drop (chunk_count (length (r :: rs))) (batch_answers w)
    /\ association_answers w' = answers
    /\ token_answers w' = token_answers w
    /\ config w' = config w
    /\ calls w' = calls w ++ AssociationsGetAll dealId objectType
                  :: map (BatchRead api) (chunks (map toObjectId (r :: rs))).
Proof.
  intros Hapi Hw Hlen. unfold Sync.getAssociatedObjects. rewrite Hw.
  cbn [Sync.getAssociatedObjects_from a_results].
  set (w1 := call _ _).
  destruct (batch_loop_chunks objectType api (r :: rs) (map toObjectId (r :: rs)) Hapi
              (chunk_count (length (r :: rs))) 0 (batch_answers w1) [] w1)
    as (w' & Hrun & Hrest & Hcalls & Hframe).
  { by rewrite length_map. }
  { done. }
  { done. }
  rewrite Nat.mul_0_r in Hrun. cbn [app] in Hrun.
  exists w'. rewrite Hrun. destruct Hframe.
  split; [done|]. split; [done|]. split; [by rewrite bs_associations0|].
  split; [by rewrite bs_tokens0|]. split; [by rewrite bs_config0|].
  rewrite Hcalls. cbn [calls call w1]. rewrite <- app_assoc. cbn [app].
  unfold chunks. by rewrite length_map, map_map.
Qed.

(** C3. For a recognized engagement type whose association listing yields
    a non-empty list, [getAssociatedObjects] issues, after the listing, one
    batched read per chunk of the target ids and nothing else; the chunks are
    consecutive, hold between 1 and 100 ids, and concatenate to the id list.
    With 250 ids these are three reads of 100, 100 and 50 ids, in that
    order. *)
Theorem getAssociatedObjects_batches_of_100 :
  forall (w : World) (dealId objectType : string) (api : BatchApi)
         (r : Association) (rs : list Association)
         (answers : list (Answer AssociationsResponse)),
    Sync.batch_api objectType = Some api ->
    association_answers w = Ok (mkAssociations (Some (r :: rs))) :: answers ->
    chunk_count (length (r :: rs)) <= length (batch_answers w) ->
    exists res w' cs,
      Sync.getAssociatedObjects dealId objectType w = Return res w'
      /\ calls w' = calls w ++ AssociationsGetAll dealId objectType :: cs
      /\ cs = map (BatchRead api) (batch_inputs cs)
      /\ concat (batch_inputs cs) = map toObjectId (r :: rs)
      /\ Forall (fun c => 0 < length c <= 100) (batch_inputs cs)
      /\ (forall k c c', batch_inputs cs !! k = Some c -> batch_inputs cs !! S k = Some c' ->
                         length c = 100)
      /\ (length (r :: rs) = 250 -> map length (batch_inputs cs) = [100; 100; 50]).
Proof.
  intros w dealId objectType api r rs answers Hapi Hw Hlen.
  destruct (getAssociatedObjects_resolves w dealId objectType api r rs answers Hapi Hw Hlen)
    as (w' & Hrun & _ & _ & _ & _ & Hcalls).
  set (ids := map toObjectId (r :: rs)) in *.
  assert (Hinputs : batch_inputs (map (BatchRead api) (chunks ids)) = chunks ids).
  { unfold batch_inputs. generalize (chunks ids). intros l.
    induction l as [|c cs IH]; [done|]. cbn. by f_equal. }
  eexists _, w', _. split; [exact Hrun|]. split; [exact Hcalls|].
  rewrite Hinputs. split; [done|]. split; [apply concat_chunks|].
  split; [apply chunks_bounded|]. split.
  - intros k c c' Hk HSk. unfold chunks in *.
    rewrite list_lookup_fmap in Hk, HSk.
    destruct (seq 0 (chunk_count (length ids)) !! k) as [k'|] eqn:Hk'; [|done].
    destruct (seq 0 (chunk_count (length ids)) !! S k) as [k''|] eqn:Hk''; [|done].
    apply lookup_seq in Hk' as [-> _]. apply lookup_seq in Hk'' as [-> Hlt].
    rewrite Nat.add_0_l in Hk. injection Hk as <-. apply chunk_count_lt in Hlt.
    rewrite length_chunk. lia.
  - intros H250. apply chunks_250. unfold ids. by rewrite length_map.
Qed.

Lemma getAssociatedObjects_batches_of_100_witness :
  exists res w' cs,
    Sync.getAssociatedObjects "d1" "notes" world_250 = Return res w'
    /\ calls w' = calls world_250 ++ AssociationsGetAll "d1" "notes" :: cs
    /\ cs = map (BatchRead NotesBatch) (batch_inputs cs)
    /\ concat (batch_inputs cs) = map toObjectId associations_250
    /\ Forall (fun c => 0 < length c <= 100) (batch_inputs cs)
    /\ (forall k c c', batch_inputs cs !! k = Some c -> batch_inputs cs !! S k = Some c' ->
                       length c = 100)
    /\ (length associations_250 = 250 -> map length (batch_inputs cs) = [100; 100; 50]).
Proof.
  apply (getAssociatedObjects_batches_of_100 world_250 "d1" "notes" NotesBatch
           (mkAssociation "1" ["deal_to_note"]) (tail associations_250) []).
  - reflexivity.
  - vm_compute. reflexivity.
  - vm_compute. lia.
Defined.

Example getAssociatedObjects_250 :
  (map length <$> (batch_inputs <$> (calls <$>
     world_of (Sync.getAssociatedObjects "d1" "notes" world_250))))
  = Some [100; 100; 50].
Proof. vm_compute. reflexivity. Qed.

(** C4. For a recognized engagement type whose association listing yields
    a non-empty list, whatever the batched reads answer, [getAssociatedObjects]
    returns: [objects] holds the objects of the reads that succeeded, in
    order, a failed read contributing nothing, and [associations] holds the
    whole listing. *)
Theorem getAssociatedObjects_partial_batches :
  forall (w : World) (dealId objectType : string) (api : BatchApi)
         (r : Association) (rs : list Association)
         (answers : list (Answer AssociationsResponse)),
    Sync.batch_api objectType = Some api ->
    association_answers w = Ok (mkAssociations (Some (r :: rs))) :: answers ->
    chunk_count (length (r :: rs)) <= length (batch_answers w) ->
    exists w',
      Sync.getAssociatedObjects dealId objectType w
      = Return (Full (mkAssociated (r :: rs)
                        (concat (map read_objects
                                   (take (chunk_count (length (r :: rs))) (batch_answers w))))))
               w'
      /\ batch_answers w' = drop (chunk_count (length (r :: rs))) (batch_answers w).
Proof.
  intros w dealId objectType api r rs answers Hapi Hw Hlen.
  destruct (getAssociatedObjects_resolves w dealId objectType api r rs answers Hapi Hw Hlen)
    as (w' & Hrun & Hrest & _).
  by exists w'.
Qed.

Lemma getAssociatedObjects_partial_batches_witness :
  exists w',
    Sync.getAssociatedObjects "d1" "notes" world_250_one_failure
    = Return (Full (mkAssociated associations_250
                      (notes_of (take 100 note_ids) ++ notes_of (drop 200 note_ids)))) w'
    /\ batch_answers w' = [].
Proof.
  destruct (getAssociatedObjects_partial_batches world_250_one_failure "d1" "notes" NotesBatch
              (mkAssociation "1" ["deal_to_note"]) (tail associations_250) [])
    as (w' & Hrun & Hrest).
  - reflexivity.
  - vm_compute. reflexivity.
  - vm_compute. lia.
  - exists w'. split.
    + rewrite Hrun. reflexivity.
    + rewrite Hrest. reflexivity.
Defined.

(** ** Resolving associations *)

Lemma batch_loop_outcome (objectType : string) (rs : list Association)
    (ids : list string) (answers : list (Answer BatchResponse)) :
  forall (i : nat) (fullObjects : list CrmObject) (w : World),
    match Sync.batch_loop answers objectType rs ids i fullObjects w with
    | Return (Full r) _ => associations r = rs
    | Return (Raw l) _ => Sync.batch_api objectType = None /\ l = rs
    | Throw _ _ => False
    | Pending => True
    end.
Proof.
  induction answers as [|a answers IH]; intros i fullObjects w.
  - cbn [Sync.batch_loop]. destruct (i <? length ids); [|done].
    by destruct (Sync.batch_api objectType).
  - cbn [Sync.batch_loop]. destruct (i <? length ids); [|done].
    destruct (Sync.batch_api objectType); [|done].
    destruct a as [[[objs|]]|e]; cbn [b_results]; apply IH.
Qed.

Lemma batch_loop_unrecognized (objectType : string) (rs : list Association)
    (ids : list string) (answers : list (Answer BatchResponse))
    (fullObjects : list CrmObject) (w : World) :
  Sync.batch_api objectType = None ->
  0 < length ids ->
  Sync.batch_loop answers objectType rs ids 0 fullObjects w = Return (Raw rs) w.
Proof.
  intros Hapi Hlen. apply Nat.ltb_lt in Hlen.
  destruct answers; cbn [Sync.batch_loop]; by rewrite Hlen, Hapi.
Qed.

(** What [getAssociatedObjects] can produce. *)
Lemma getAssociatedObjects_from_outcome (dealId objectType : string)
    (answers : list (Answer AssociationsResponse)) :
  forall (w : World),
    match Sync.getAssociatedObjects_from answers dealId objectType w with
    | Return (Full r) _ => True
    | Return (Raw l) _ =>
        Sync.batch_api objectType = None /\ l <> []
        /\ Ok (mkAssociations (Some l)) ∈ answers
    | Throw e _ =>
        Failed e ∈ token_answers w
        /\ exists e', Failed e' ∈ answers /\ auth_expired e' = true
    | Pending => True
    end.
Proof.
  induction answers as [|[[[[|r rs]|]]|e] answers IH]; intros w; try done.
  - cbn [Sync.getAssociatedObjects_from a_results].
    set (w1 := call _ _).
    pose proof (batch_loop_outcome objectType (r :: rs) (map toObjectId (r :: rs))
                  (batch_answers w1) 0 [] w1) as Hloop.
    destruct (Sync.batch_loop _ _ _ _ _ _ _) as [[res|l] w'|e w'|]; try done.
    destruct Hloop as [Hapi ->]. split; [done|]. split; [done|]. left.
  - cbn [Sync.getAssociatedObjects_from].
    set (w1 := call _ _). rewrite token_expired_auth.
    destruct (auth_expired e) eqn:He; [|done].
    destruct (truthy _); [|done]. cbn [andb].
    pose proof (refreshAccessToken_cases w1) as Hcases.
    change (token_answers w1) with (token_answers w) in Hcases.
    destruct (token_answers w) as [|[r|e'] ts] eqn:Htok.
    + rewrite Hcases. by cbn.
    + destruct Hcases as (w2 & -> & Hw2).
      specialize (IH (setAccessToken (res_accessToken r) w2)).
      destruct (Sync.getAssociatedObjects_from _ _ _ _) as [[res|l] w'|e' w'|]; try done.
      * destruct IH as (? & ? & ?). split; [done|]. split; [done|]. by right.
      * destruct IH as (Hin & e'' & ? & ?). cbn in Hin.
        rewrite (rf_tokens _ _ _ Hw2) in Hin.
        change (token_answers w1) with (token_answers w) in Hin. rewrite Htok in Hin.
        split; [by right|]. exists e''. split; [by right|done].
    + rewrite Hcases. cbn. split; [left|]. exists e. split; [left|done].
Qed.

(** With answers that suffice, [getAssociatedObjects] is not left
    awaiting, and what is left suffices for one call less. *)
Lemma getAssociatedObjects_from_live (dealId objectType : string) (k : nat)
    (answers : list (Answer AssociationsResponse)) :
  forall (w : World),
    suffices_from (S k) answers w ->
    match Sync.getAssociatedObjects_from answers dealId objectType w with
    | Return _ w' => suffices k w'
    | Throw _ _ => True
    | Pending => False
    end.
Proof.
  unfold suffices.
  induction answers as [|a answers IH]; intros w (Hlen & Htok & Hbatch).
  - cbn in Hlen. lia.
  - rewrite count_401_cons in Hlen, Htok. cbn [length map sum_list] in Hlen, Hbatch.
    assert (Hrest : forall w1 : World,
               token_answers w1 = token_answers w ->
               batch_answers w1 = batch_answers w ->
               association_answers w1 = answers ->
               suffices_from k (association_answers w1) w1).
    { intros w1 Ht Hb Ha. unfold suffices_from. rewrite Ht, Hb, Ha.
      destruct (is_401 a); repeat split; lia. }
    destruct a as [[[[|r rs]|]]|e]; cbn [Sync.getAssociatedObjects_from a_results].
    + by apply Hrest.
    + set (w1 := call _ _).
      destruct (Sync.batch_api objectType) as [api|] eqn:Hapi.
      * destruct (batch_loop_chunks objectType api (r :: rs) (map toObjectId (r :: rs)) Hapi
                    (chunk_count (length (r :: rs))) 0 (batch_answers w1) [] w1)
          as (w' & Hrun & Hleft & _ & Hframe);
          [by rewrite length_map
          |cbn [batch_need a_results default from_option id] in Hbatch;
           change (batch_answers w1) with (batch_answers w); lia
          |done|].
        rewrite Nat.mul_0_r in Hrun. rewrite Hrun.
        destruct Hframe. unfold suffices_from.
        rewrite bs_associations0, bs_tokens0, Hleft.
        cbn [association_answers token_answers batch_answers w1 call set_association_answers].
        rewrite length_drop. cbn [batch_need a_results default from_option id is_401] in *.
        repeat split; lia.
      * rewrite batch_loop_unrecognized by (done || cbn; lia).
        by apply Hrest.
    + by apply Hrest.
    + set (w1 := call _ _). rewrite token_expired_auth.
      destruct (auth_expired e) eqn:He; cbn [andb].
      * destruct (truthy _) eqn:Htruthy.
        -- pose proof (refreshAccessToken_cases w1) as Hcases.
           change (token_answers w1) with (token_answers w) in Hcases.
           cbn [is_401] in *. rewrite He in *.
           destruct (token_answers w) as [|[r|e'] ts] eqn:Hts; [cbn in Htok; lia| |].
           ++ destruct Hcases as (w2 & -> & Hw2). apply IH.
              unfold suffices_from. cbn [token_answers batch_answers setAccessToken].
              rewrite (rf_tokens _ _ _ Hw2), (rf_batches _ _ _ Hw2).
              change (token_answers w1) with (token_answers w).
              change (batch_answers w1) with (batch_answers w).
              rewrite Hts. cbn [tail length batch_need] in *. repeat split; lia.
           ++ rewrite Hcases. by cbn.
        -- by apply Hrest.
      * by apply Hrest.
Qed.

(** ** Aggregating the activities of a deal *)

Lemma resolve_types_outcome (dealId : string) (types : list string) :
  forall (activity_types : gmap string Resolution) (w : World),
    match Sync.resolve_types types dealId activity_types w with
    | Return result _ => dom result = dom activity_types ∪ list_to_set types
    | _ => True
    end.
Proof.
  induction types as [|type types IH]; intros acts w.
  - cbn. set_solver.
  - cbn [Sync.resolve_types]. unfold bind.
    destruct (Sync.getAssociatedObjects dealId type w) as [res w'|e w'|]; [|done..].
    specialize (IH (<[type := res]> acts) w').
    destruct (Sync.resolve_types _ _ _ _); [|done..].
    rewrite IH, dom_insert_L. set_solver.
Qed.

Lemma resolve_types_live (dealId : string) (types : list string) :
  forall (activity_types : gmap string Resolution) (w : World),
    suffices (length types) w ->
    Sync.resolve_types types dealId activity_types w <> Pending.
Proof.
  induction types as [|type types IH]; intros acts w Hw; [done|].
  cbn [Sync.resolve_types]. unfold bind.
  pose proof (getAssociatedObjects_from_live dealId type (length types)
                (association_answers w) w Hw) as Hlive.
  unfold Sync.getAssociatedObjects.
  destruct (Sync.getAssociatedObjects_from _ _ _ _) as [res w'|e w'|]; [|done..].
  by apply IH.
Qed.

(** C5. [getDealActivities] never raises, and the record it returns
    carries the deal id and exactly the five keys notes, calls, meetings,
    emails and tasks.  When a failure escapes [getAssociatedObjects], the
    record has that shape, an [error] field with the failure message, and
    the five entries are empty association/object pairs.  It does return
    whenever the vendor answers suffice for five resolutions. *)
Theorem getDealActivities_always_five_keys :
  forall (dealId : string) (w : World),
    (forall e w', Sync.getDealActivities dealId w <> Throw e w')
    /\ (forall r w',
          Sync.getDealActivities dealId w = Return r w' ->
          deal_id r = dealId /\ dom (activity_types r) = five_keys)
    /\ (forall e w',
          Sync.resolve_types Sync.activityTypes dealId ∅ w = Throw e w' ->
          exists r,
            Sync.getDealActivities dealId w = Return r w'
            /\ deal_id r = dealId
            /\ error r = Some (message e)
            /\ dom (activity_types r) = five_keys
            /\ forall type, type ∈ Sync.activityTypes ->
                 activity_types r !! type = Some (Full (mkAssociated [] [])))
    /\ (suffices 5 w -> exists r w', Sync.getDealActivities dealId w = Return r w').
Proof.
  intros dealId w.
  pose proof (resolve_types_outcome dealId Sync.activityTypes ∅ w) as Hout.
  pose proof (resolve_types_live dealId Sync.activityTypes ∅ w) as Hlive.
  unfold Sync.getDealActivities. unfold_js.
  destruct (Sync.resolve_types Sync.activityTypes dealId ∅ w) as [acts w'|e w'|].
  - split; [done|]. split; [|split; [done|by eauto]].
    intros r w'' [= <- <-]. cbn. split; [done|]. rewrite Hout. unfold five_keys. set_solver.
  - split; [done|]. split; [|split; [|by eauto]].
    + intros r w'' [= <- <-]. cbn. split; [done|]. unfold five_keys, Sync.activityTypes.
      rewrite !dom_insert_L. set_solver.
    + intros e0 w0 [= <- <-]. eexists. split; [done|]. cbn.
      split; [done|]. split; [done|]. split.
      * unfold five_keys, Sync.activityTypes. rewrite !dom_insert_L. set_solver.
      * intros type Htype. unfold Sync.activityTypes in Htype.
        repeat (apply elem_of_cons in Htype as [->|Htype]; [by simplify_map_eq|]).
        by apply elem_of_nil in Htype.
  - split; [done|]. split; [done|]. split; [done|].
    intros Hw. by destruct (Hlive Hw).
Qed.

Lemma getDealActivities_always_five_keys_witness :
  exists r w', Sync.getDealActivities "d1" world_refresh_fails = Return r w'.
Proof.
  destruct (getDealActivities_always_five_keys "d1" world_refresh_fails)
    as (_ & _ & _ & Hreturns).
  apply Hreturns. repeat split; vm_compute; lia.
Defined.

Example getDealActivities_degraded :
  exists w',
    Sync.getDealActivities "d1" world_refresh_fails
    = Return (mkActivities "d1" 1000 (Some "HTTP-Code: 500 Internal Server Error")
                (<["notes" := Sync.empty_result]>
                   (<["calls" := Sync.empty_result]>
                      (<["meetings" := Sync.empty_result]>
                         (<["emails" := Sync.empty_result]>
                            (<["tasks" := Sync.empty_result]> ∅)))))) w'.
Proof. eexists. vm_compute. reflexivity. Qed.

(** ** What [getAssociatedObjects] returns *)




(** ** Writing the activity files *)

Lemma hasActivities_engagement (activities : ActivityRecord) :
  Sync.hasActivities activities = true <-> has_engagement activities.
Proof.
  unfold Sync.hasActivities, has_engagement. rewrite existsb_exists. split.
  - intros (data & Hin & Hdata).
    apply list_elem_of_In, list_elem_of_fmap in Hin as ([type data'] & -> & Hin).
    apply elem_of_map_to_list in Hin. cbn in *.
    destruct data' as [r|l]; [|done]. exists type, r. split; [done|].
    intros Hnil. cbn in Hdata. by rewrite Hnil in Hdata.
  - intros (type & r & Hlookup & Hne). exists (Full r). split.
    + apply list_elem_of_In, list_elem_of_fmap. exists (type, Full r).
      split; [done|]. by apply elem_of_map_to_list.
    + cbn. by destruct (associations r).
Qed.

Lemma activity_writes_app (cs1 cs2 : list Call) :
  activity_writes (cs1 ++ cs2) = activity_writes cs1 ++ activity_writes cs2.
Proof. apply omap_app. Qed.

Lemma activity_writes_fs (cs : list Call) :
  forallb is_fs_call cs = true -> activity_writes cs = [].
Proof.
  induction cs as [|c cs IH]; [done|]. cbn. intros [Hc Hcs]%andb_prop.
  unfold activity_writes in *. cbn. destruct c as [| | | | |p []|]; try done; by apply IH.
Qed.

Lemma quiet_refl (w : World) : quiet w w.
Proof. split; [done|]. exists []. by rewrite app_nil_r. Qed.

Lemma quiet_trans (w1 w2 w3 : World) : quiet w1 w2 -> quiet w2 w3 -> quiet w1 w3.
Proof.
  intros [Hd1 (cs1 & Hcs1 & Hq1)] [Hd2 (cs2 & Hcs2 & Hq2)]. split; [congruence|].
  exists (cs1 ++ cs2). split.
  - by rewrite Hcs2, Hcs1, <- app_assoc.
  - by rewrite activity_writes_app, Hq1, Hq2.
Qed.

Lemma quiet_call (c : Call) (w w1 : World) :
  config w1 = config w -> calls w1 = calls w -> activity_writes [c] = [] ->
  quiet w (call c w1).
Proof.
  intros Hcfg Hcalls Hc. split; [cbn; by rewrite Hcfg|].
  exists [c]. split; [cbn; by rewrite Hcalls|done].
Qed.

Lemma quiet_setAccessToken (tok : option string) (w w' : World) :
  quiet w w' -> quiet w (setAccessToken tok w').
Proof. done. Qed.

Lemma quiet_refreshAccessToken (w w' : World) :
  world_of (Sync.refreshAccessToken w) = Some w' -> quiet w w'.
Proof.
  intros Hw'. pose proof (refreshAccessToken_cases w) as Hcases.
  destruct (token_answers w) as [|[r|e] ts].
  - by rewrite Hcases in Hw'.
  - destruct Hcases as (w2 & Hrun & Hw2). rewrite Hrun in Hw'. injection Hw' as <-.
    split; [apply (rf_outputDir _ _ _ Hw2)|].
    destruct (rf_calls _ _ _ Hw2) as (fs & Hfs & Hfs_only).
    eexists. split; [exact Hfs|].
    change (?c :: fs) with ([c] ++ fs).
    by rewrite activity_writes_app, (activity_writes_fs fs).
  - rewrite Hcases in Hw'. injection Hw' as <-. by apply quiet_call.
Qed.

Lemma quiet_batch_loop (objectType : string) (rs : list Association) (ids : list string)
    (answers : list (Answer BatchResponse)) :
  forall (i : nat) (fullObjects : list CrmObject) (w w' : World),
    world_of (Sync.batch_loop answers objectType rs ids i fullObjects w) = Some w' ->
    quiet w w'.
Proof.
  induction answers as [|a answers IH]; intros i fullObjects w w'.
  - cbn [Sync.batch_loop]. destruct (i <? length ids); [|intros [= <-]; apply quiet_refl].
    destruct (Sync.batch_api objectType); [done|intros [= <-]; apply quiet_refl].
  - cbn [Sync.batch_loop]. destruct (i <? length ids); [|intros [= <-]; apply quiet_refl].
    destruct (Sync.batch_api objectType) as [api|]; [|intros [= <-]; apply quiet_refl].
    set (w1 := call _ _).
    assert (Hw1 : quiet w w1) by by apply quiet_call.
    destruct a as [[[objs|]]|e]; cbn [b_results]; intros Hw';
      apply IH in Hw'; by eapply quiet_trans.
Qed.

Lemma quiet_getAssociatedObjects_from (dealId objectType : string)
    (answers : list (Answer AssociationsResponse)) :
  forall (w w' : World),
    world_of (Sync.getAssociatedObjects_from answers dealId objectType w) = Some w' ->
    quiet w w'.
Proof.
  induction answers as [|a answers IH]; intros w w'; [done|].
  cbn [Sync.getAssociatedObjects_from]. set (w1 := call _ _).
  assert (Hw1 : quiet w w1) by by apply quiet_call.
  destruct a as [[[[|r rs]|]]|e]; cbn [a_results].
  - by intros [= <-].
  - intros Hw'. apply quiet_batch_loop in Hw'. by eapply quiet_trans.
  - by intros [= <-].
  - destruct (Sync.token_expired e w1); [|by intros [= <-]].
    destruct (Sync.refreshAccessToken w1) as [tok w2|e' w2|] eqn:Hrefresh; [| |done].
    + intros Hw'. apply IH in Hw'.
      assert (Hw2 : quiet w1 w2) by (apply quiet_refreshAccessToken; by rewrite Hrefresh).
      eapply quiet_trans; [exact Hw1|]. eapply quiet_trans; [exact Hw2|]. exact Hw'.
    + intros [= <-].
      assert (Hw2 : quiet w1 w2) by (apply quiet_refreshAccessToken; by rewrite Hrefresh).
      by eapply quiet_trans.
Qed.

Lemma quiet_resolve_types (dealId : string) (types : list string) :
  forall (activity_types : gmap string Resolution) (w w' : World),
    world_of (Sync.resolve_types types dealId activity_types w) = Some w' ->
    quiet w w'.
Proof.
  induction types as [|type types IH]; intros acts w w'.
  - intros [= <-]. apply quiet_refl.
  - cbn [Sync.resolve_types]. unfold bind, Sync.getAssociatedObjects.
    destruct (Sync.getAssociatedObjects_from _ _ _ _) as [res w1|e w1|] eqn:Hres; [| |done].
    + intros Hw'. apply IH in Hw'. eapply quiet_trans; [|exact Hw'].
      apply (quiet_getAssociatedObjects_from dealId type (association_answers w)).
      by rewrite Hres.
    + intros [= <-].
      apply (quiet_getAssociatedObjects_from dealId type (association_answers w)).
      by rewrite Hres.
Qed.

Lemma getDealActivities_returns (dealId : string) (w : World)
    (activities : ActivityRecord) (w1 : World) :
  Sync.getDealActivities dealId w = Return activities w1 ->
  deal_id activities = dealId /\ quiet w w1.
Proof.
  unfold Sync.getDealActivities. unfold_js.
  destruct (Sync.resolve_types _ _ _ _) as [acts w'|e w'|] eqn:Hres; [| |done];
    intros [= <- <-]; (split; [done|]);
    apply (quiet_resolve_types dealId Sync.activityTypes ∅); by rewrite Hres.
Qed.

(** One round of the loop, after the record was aggregated. *)
Lemma export_deal_round (deal : Deal) (w : World) (activities : ActivityRecord) (w1 : World) :
  Sync.getDealActivities (d_id deal) w = Return activities w1 ->
  (Sync.hasActivities activities = true ->
   exists w2,
     world_of (Sync.export_deal deal w) = Some w2
     /\ config w2 = config w1
     /\ calls w2 = calls w1 ++ [WriteFile (activity_path deal w1) (JsonActivities activities)])
  /\ (Sync.hasActivities activities = false -> Sync.export_deal deal w = Return tt w1).
Proof.
  intros Hrun. unfold Sync.export_deal. unfold_js. rewrite Hrun.
  destruct (Sync.hasActivities activities); split; try done.
  intros _. unfold Sync.saveToFile, fs_writeFile. cbn.
  destruct (fs_fault w1); by eexists.
Qed.

(** The whole loop: the records written are those with activities, each
    under the name of its deal. *)
Lemma export_deals_writes (deals : list Deal) :
  forall (w w' : World),
    Sync.export_deals deals w = Return tt w' ->
    cfg_outputDir (config w') = cfg_outputDir (config w)
    /\ exists cs,
        calls w' = calls w ++ cs
        /\ activity_writes cs
           = map (record_file w)
               (filter (fun a => Sync.hasActivities a) (records_of_run deals w)).
Proof.
  induction deals as [|deal deals IH]; intros w w' Hrun.
  - injection Hrun as <-. split; [done|]. exists []. by rewrite app_nil_r.
  - cbn [Sync.export_deals records_of_run] in *. unfold bind in Hrun.
    destruct (Sync.export_deal deal w) as [[] w2|e w2|] eqn:Hround; [|done..].
    destruct (Sync.getDealActivities (d_id deal) w) as [activities w1|e w1|] eqn:Hagg;
      [|unfold Sync.export_deal, bind in Hround; by rewrite Hagg in Hround..].
    destruct (getDealActivities_returns _ _ _ _ Hagg) as [Hid [Hdir (cs1 & Hcs1 & Hq1)]].
    destruct (export_deal_round deal w activities w1 Hagg) as [Hyes Hno].
    destruct (IH w2 w' Hrun) as [Hdir' (cs2 & Hcs2 & Hq2)].
    assert (Hfile : record_file w2 = record_file w -> 
                    map (record_file w2) (filter (fun a => Sync.hasActivities a)
                                            (records_of_run deals w2))
                    = map (record_file w) (filter (fun a => Sync.hasActivities a)
                                             (records_of_run deals w2))) by congruence.
    destruct (Sync.hasActivities activities) eqn:Hhas.
    + destruct (Hyes eq_refl) as (w2' & Hw2' & Hcfg2 & Hcalls2).
      rewrite Hround in Hw2'. injection Hw2' as <-.
      assert (Hsame : record_file w2 = record_file w).
      { unfold record_file. by rewrite Hcfg2, Hdir. }
      split; [by rewrite Hdir', Hcfg2|].
      exists (cs1 ++ [WriteFile (activity_path deal w1) (JsonActivities activities)] ++ cs2).
      split; [by rewrite Hcs2, Hcalls2, Hcs1, <- !app_assoc|].
      rewrite filter_cons_True by (by rewrite Hhas).
      rewrite !activity_writes_app, Hq1, Hq2, (Hfile Hsame). cbn.
      unfold record_file, activity_path. by rewrite Hid, Hdir.
    + rewrite (Hno eq_refl) in Hround. injection Hround as <-.
      assert (Hsame : record_file w1 = record_file w).
      { unfold record_file. by rewrite Hdir. }
      split; [by rewrite Hdir'|].
      exists (cs1 ++ cs2). split; [by rewrite Hcs2, Hcs1, <- app_assoc|].
      rewrite filter_cons_False by (rewrite Hhas; cbn; tauto).
      by rewrite activity_writes_app, Hq1, Hq2, (Hfile Hsame).
Qed.

(** C6. In a round of the export loop, once [getDealActivities] has
    returned the record of the deal: when the record has an engagement-type
    entry with a non-empty associations list, the round calls
    [fs.writeFile] once, for [activities/{dealId}.json] under the output
    directory and with that record; otherwise the round ends where
    [getDealActivities] ended, without a call.  Over a whole loop that
    runs to its end, the activity records written are, in order, the
    aggregated records that have such an entry, each to the file of its
    deal. *)
Theorem export_deal_writes_iff_activities :
  (forall (deal : Deal) (w : World) (activities : ActivityRecord) (w1 : World),
      Sync.getDealActivities (d_id deal) w = Return activities w1 ->
      (has_engagement activities ->
       exists w2,
         world_of (Sync.export_deal deal w) = Some w2
         /\ calls w2
            = calls w1 ++ [WriteFile (activity_path deal w1) (JsonActivities activities)])
      /\ (~ has_engagement activities -> Sync.export_deal deal w = Return tt w1))
  /\ (forall (deals : list Deal) (w w' : World),
        Sync.export_deals deals w = Return tt w' ->
        exists cs,
          calls w' = calls w ++ cs
          /\ activity_writes cs
             = map (record_file w)
                 (filter (fun a => Sync.hasActivities a) (records_of_run deals w))
          /\ forall a, a ∈ records_of_run deals w ->
               (Sync.hasActivities a = true <-> has_engagement a)).
Proof.
  split.
  - intros deal w activities w1 Hrun.
    destruct (export_deal_round deal w activities w1 Hrun) as [Hyes Hno].
    pose proof (hasActivities_engagement activities) as Hiff. split.
    + intros Heng. apply Hiff in Heng. destruct (Hyes Heng) as (w2 & Hw2 & _ & Hcalls).
      by exists w2.
    + intros Hnone. apply Hno. destruct (Sync.hasActivities activities); [|done].
      destruct Hnone. by apply Hiff.
  - intros deals w w' Hrun.
    destruct (export_deals_writes deals w w' Hrun) as [_ (cs & Hcs & Hwrites)].
    exists cs. split; [done|]. split; [done|].
    intros a _. apply hasActivities_engagement.
Qed.

Lemma export_deal_writes_iff_activities_witness :
  exists cs,
    (calls <$> world_of (Sync.export_deals [mkDeal "A" []; mkDeal "B" []; mkDeal "C" []]
                           (set_page_answers [] world_three_deals)))
    = Some cs
    /\ written_paths cs = [Join "./data" "activities/A.json"; Join "./data" "activities/C.json"]
    /\ map fst (activity_writes cs)
       = [Join "./data" "activities/A.json"; Join "./data" "activities/C.json"].
Proof.
  destruct export_deal_writes_iff_activities as [_ Hloop].
  destruct (Sync.export_deals [mkDeal "A" []; mkDeal "B" []; mkDeal "C" []]
              (set_page_answers [] world_three_deals)) as [[] w'|e w'|] eqn:Hrun;
    [|vm_compute in Hrun; discriminate..].
  destruct (Hloop _ _ _ Hrun) as (cs & Hcs & Hwrites & _).
  cbn [calls set_page_answers world_three_deals app] in Hcs.
  exists cs. split; [cbn; by rewrite Hcs|].
  assert (Hcalls : calls w' = cs) by done.
  assert (Hw' : Some w' = world_of (Sync.export_deals
                                     [mkDeal "A" []; mkDeal "B" []; mkDeal "C" []]
                                     (set_page_answers [] world_three_deals)))
    by (by rewrite Hrun).
  vm_compute in Hw'. injection Hw' as ->. rewrite <- Hcalls.
  split; vm_compute; reflexivity.
Defined.

(** The scenario of three deals: A has two notes, B has no activity and C
    has one call; the run writes [deals.json], [activities/A.json] and
    [activities/C.json]. *)
Example export_three_deals :
  (written_paths <$> (calls <$> world_of (Sync.exportDealsAndActivities world_three_deals)))
  = Some [Join "./data" "deals.json"; Join "./data" "activities/A.json";
          Join "./data" "activities/C.json"].
Proof. vm_compute. reflexivity. Qed.

(** ** Refresh and retry, round after round *)

(** [k] consecutive 401 failures of the request for one page: [k]
    refreshes, [k] requests for that cursor, and the loop goes on with the
    cursor and the deals it had. *)
Lemma getAllDeals_loop_rounds (e : Error) (k : nat) :
  auth_expired e = true ->
  forall (answers : list (Answer PageResponse)) (after_ : option string)
         (deals : list Deal) (w : World),
    refresh_ready k w ->
    exists w_k cs,
      Sync.getAllDeals_loop (replicate k (Failed e) ++ answers) after_ deals w
      = Sync.getAllDeals_loop answers after_ deals w_k
      /\ calls w_k = calls w ++ cs
      /\ page_cursors cs = replicate k after_
      /\ count_calls is_token_call cs = k.
Proof.
  intros He. induction k as [|k IH]; intros answers after_ deals w Hready.
  - exists w, []. by rewrite app_nil_r.
  - cbn [replicate app Sync.getAllDeals_loop]. set (w1 := call _ _).
    rewrite token_expired_auth, He. cbn [andb].
    destruct Hready as (Hcfg & Hlen & Hgood).
    change (cfg_refreshToken (config w1)) with (cfg_refreshToken (config w)). rewrite Hcfg.
    destruct (refresh_ready_step k w1) as (r & w2 & -> & Hw2 & Hready'); [by split|].
    destruct (IH answers after_ deals (setAccessToken (res_accessToken r) w2) (Hready' _))
      as (w_k & cs & Hrun & Hcalls & Hcursors & Htokens).
    destruct (rf_calls _ _ _ Hw2) as (fs & Hfs & Hfs_only).
    exists w_k,
      (GetPage (cfg_batchSize (config w)) after_ (bearer w)
         :: TokensCreate (cfg_clientId (config w1)) (cfg_clientSecret (config w1))
              (cfg_refreshToken (config w1)) :: fs ++ cs).
    split; [done|]. split; [|split].
    + rewrite Hcalls. cbn [calls setAccessToken]. rewrite Hfs. cbn [calls call w1].
      by rewrite <- !app_assoc.
    + change (?a :: ?b :: fs ++ cs) with ([a; b] ++ fs ++ cs).
      rewrite !page_cursors_app, (page_cursors_fs fs), Hcursors by done. done.
    + rewrite !count_calls_cons, count_calls_app, (count_calls_fs _ fs), Htokens; try done.
      by intros [].
Qed.

Lemma association_requests_fs (cs : list Call) :
  forallb is_fs_call cs = true -> association_requests cs = [].
Proof.
  induction cs as [|c cs IH]; [done|]. cbn. intros [Hc Hcs]%andb_prop.
  unfold association_requests in *. cbn. destruct c; try done; by apply IH.
Qed.

Lemma association_requests_app (cs1 cs2 : list Call) :
  association_requests (cs1 ++ cs2) = association_requests cs1 ++ association_requests cs2.
Proof. apply omap_app. Qed.

Lemma getAssociatedObjects_from_rounds (e : Error) (dealId objectType : string) (k : nat) :
  auth_expired e = true ->
  forall (answers : list (Answer AssociationsResponse)) (w : World),
    refresh_ready k w ->
    exists w_k cs,
      Sync.getAssociatedObjects_from (replicate k (Failed e) ++ answers) dealId objectType w
      = Sync.getAssociatedObjects_from answers dealId objectType w_k
      /\ calls w_k = calls w ++ cs
      /\ association_requests cs = replicate k (dealId, objectType)
      /\ count_calls is_token_call cs = k.
Proof.
  intros He. induction k as [|k IH]; intros answers w Hready.
  - exists w, []. by rewrite app_nil_r.
  - cbn [replicate app Sync.getAssociatedObjects_from]. set (w1 := call _ _).
    rewrite token_expired_auth, He. cbn [andb].
    destruct Hready as (Hcfg & Hlen & Hgood).
    change (cfg_refreshToken (config w1)) with (cfg_refreshToken (config w)). rewrite Hcfg.
    destruct (refresh_ready_step k w1) as (r & w2 & -> & Hw2 & Hready'); [by split|].
    destruct (IH answers (setAccessToken (res_accessToken r) w2) (Hready' _))
      as (w_k & cs & Hrun & Hcalls & Hrequests & Htokens).
    destruct (rf_calls _ _ _ Hw2) as (fs & Hfs & Hfs_only).
    exists w_k,
      (AssociationsGetAll dealId objectType
         :: TokensCreate (cfg_clientId (config w1)) (cfg_clientSecret (config w1))
              (cfg_refreshToken (config w1)) :: fs ++ cs).
    split; [done|]. split; [|split].
    + rewrite Hcalls. cbn [calls setAccessToken]. rewrite Hfs. cbn [calls call w1].
      by rewrite <- !app_assoc.
    + change (?a :: ?b :: fs ++ cs) with ([a; b] ++ fs ++ cs).
      rewrite !association_requests_app, (association_requests_fs fs Hfs_only), Hrequests.
      done.
    + rewrite !count_calls_cons, count_calls_app, (count_calls_fs _ fs), Htokens; try done.
      by intros [].
Qed.

(** C8, as the code has it. While a refresh token is configured and the
    token exchange succeeds, a list-deals or list-associations request that
    fails with a 401 is followed by one token refresh and a retry of the same
    request, and so again for every further 401 of the retried request: [k]
    failures in a row make [k] refreshes and [k] further requests for the
    same cursor, or for the same deal and type, whatever [k].  A batched read
    that fails, with a 401 or otherwise, is followed by no token exchange
    and is not repeated. *)
Theorem refresh_and_retry_every_round :
  forall (e : Error) (k : nat),
    auth_expired e = true ->
    (forall (answers : list (Answer PageResponse)) (after_ : option string)
            (deals : list Deal) (w : World),
        refresh_ready k w ->
        exists w_k cs,
          Sync.getAllDeals_loop (replicate k (Failed e) ++ answers) after_ deals w
          = Sync.getAllDeals_loop answers after_ deals w_k
          /\ calls w_k = calls w ++ cs
          /\ page_cursors cs = replicate k after_
          /\ count_calls is_token_call cs = k)
    /\ (forall (dealId objectType : string)
               (answers : list (Answer AssociationsResponse)) (w : World),
          refresh_ready k w ->
          exists w_k cs,
            Sync.getAssociatedObjects_from (replicate k (Failed e) ++ answers)
              dealId objectType w
            = Sync.getAssociatedObjects_from answers dealId objectType w_k
            /\ calls w_k = calls w ++ cs
            /\ association_requests cs = replicate k (dealId, objectType)
            /\ count_calls is_token_call cs = k)
    /\ (forall (w : World) (dealId objectType : string) (api : BatchApi)
               (r : Association) (rs : list Association)
               (answers : list (Answer AssociationsResponse)),
          Sync.batch_api objectType = Some api ->
          association_answers w = Ok (mkAssociations (Some (r :: rs))) :: answers ->
          chunk_count (length (r :: rs)) <= length (batch_answers w) ->
          exists res w' cs,
            Sync.getAssociatedObjects dealId objectType w = Return res w'
            /\ calls w' = calls w ++ cs
            /\ count_calls is_token_call cs = 0
            /\ batch_inputs cs = chunks (map toObjectId (r :: rs))
            /\ token_answers w' = token_answers w).
Proof.
  intros e k He. split; [|split].
  - intros answers after_ deals w Hready. by apply getAllDeals_loop_rounds.
  - intros dealId objectType answers w Hready. by apply getAssociatedObjects_from_rounds.
  - intros w dealId objectType api r rs answers Hapi Hw Hlen.
    destruct (getAssociatedObjects_resolves w dealId objectType api r rs answers Hapi Hw Hlen)
      as (w' & Hrun & _ & _ & Htokens & _ & Hcalls).
    eexists _, w', _. split; [exact Hrun|]. split; [exact Hcalls|].
    split; [|split; [|done]].
    + rewrite count_calls_cons. cbn [is_association_call is_token_call Nat.add].
      generalize (chunks (map toObjectId (r :: rs))). intros l.
      induction l as [|c l IH]; [done|]. cbn [map]. by rewrite count_calls_cons.
    + unfold batch_inputs. cbn [omap].
      generalize (chunks (map toObjectId (r :: rs))). intros l.
      induction l as [|c l IH]; [done|]. cbn. by f_equal.
Qed.

Lemma refresh_and_retry_every_round_witness :
  exists w_k cs,
    Sync.getAllDeals_loop (replicate 2 (Failed e401) ++ [Ok page2]) None [] world_two_401
    = Sync.getAllDeals_loop [Ok page2] None [] w_k
    /\ calls w_k = calls world_two_401 ++ cs
    /\ page_cursors cs = replicate 2 None
    /\ count_calls is_token_call cs = 2.
Proof.
  destruct (refresh_and_retry_every_round e401 2) as (Hpages & _ & _).
  - reflexivity.
  - apply Hpages. split; [reflexivity|]. split; [vm_compute; lia|reflexivity].
Defined.

(** C8 as stated fails. The request for the first page fails with a 401,
    is retried after a refresh and fails with a 401 again: the failure does
    not escalate, [getAllDeals] refreshes a second time, requests the page
    a third time and returns.  And the batched read of a note fails with a
    401: no token is refreshed and the read is not retried. *)
Lemma second_401_triggers_second_refresh :
  (exists w',
      Sync.getAllDeals world_two_401 = Return [mkDeal "3" []] w'
      /\ page_cursors (calls w') = [None; None; None]
      /\ count_calls is_token_call (calls w') = 2)
  /\ (exists w',
        Sync.getAssociatedObjects "d1" "notes" world_batch_401
        = Return (Full (mkAssociated [mkAssociation "n1" []] [])) w'
        /\ calls w' = [AssociationsGetAll "d1" "notes"; BatchRead NotesBatch ["n1"]]).
Proof.
  split; eexists; vm_compute; done.
Qed.

(** ** Rewriting the token lines of [.env] *)

Lemma append_nil (s : string) : EmptyString +:+ s = s.
Proof. done. Qed.

Lemma append_cons (c : ascii) (a b : string) : String c a +:+ b = String c (a +:+ b).
Proof. done. Qed.

Lemma append_assoc (a b c : string) : (a +:+ b) +:+ c = a +:+ b +:+ c.
Proof. induction a as [|x a IH]; [done|]. rewrite !append_cons. by f_equal. Qed.

Lemma strip_prefix_split (p s rest : string) :
  strip_prefix p s = Some rest -> s = p +:+ rest.
Proof.
  revert s. induction p as [|a p IH]; intros s Hs.
  - cbn in Hs. by injection Hs as <-.
  - destruct s as [|b s]; [done|]. cbn in Hs.
    destruct (Ascii.eqb_spec a b) as [->|]; [|done].
    rewrite append_cons. f_equal. by apply IH.
Qed.

Lemma strip_prefix_append (p rest : string) : strip_prefix p (p +:+ rest) = Some rest.
Proof.
  induction p as [|a p IH]; [done|]. rewrite append_cons. cbn. by rewrite Ascii.eqb_refl.
Qed.



Lemma lines_nonempty (s : string) : lines s <> [].
Proof.
  induction s as [|c s IH]; [done|]. cbn.
  destruct (Ascii.eqb c LF); [done|]. by destruct (lines s).
Qed.













Example updateEnvFile_rewrites_token_lines :
  lines (update_token_values new_tokens dotenv_before)
  = ["HUBSPOT_CLIENT_ID=cid"; "HUBSPOT_ACCESS_TOKEN=tok1"; "HUBSPOT_REFRESH_TOKEN=ref1";
     "HUBSPOT_TOKEN_EXPIRES_AT=1801000"; "OUTPUT_DIR=./data"; ""].
Proof. vm_compute. reflexivity. Qed.

(** Without [.env] and without [.env.example] the bootstrap script writes
    its own text, with the tokens in it. *)
Example OAuth_updateEnvFile_from_scratch :
  (fun w => lines <$> (files w !! ".env"))
    <$> world_of (OAuth.updateEnvFile oauth_constants new_tokens
                    (mkWorld plain_config None 1000 ∅ None [] [] [] [] []))
  = Some (Some [""; "HUBSPOT_CLIENT_ID=cid"; "HUBSPOT_CLIENT_SECRET=sec";
                "HUBSPOT_REDIRECT_URI=http://localhost:3000/oauth-callback"; "";
                "# OAuth tokens"; "HUBSPOT_ACCESS_TOKEN=tok1"; "HUBSPOT_REFRESH_TOKEN=ref1";
                "HUBSPOT_TOKEN_EXPIRES_AT=1801000"; ""; "# Configuration";
                "OUTPUT_DIR=./data"; "BATCH_SIZE=100"; ""]).
Proof. vm_compute. reflexivity. Qed.

(** A token value with a replacement pattern: [$'] stands for the text
    after the match, which is then written a second time. *)
Example updateEnvFile_dollar_in_token :
  lines (update_token_values (mkTokens (Some "a$'") (Some "ref1") 5) dotenv_before)
  = ["HUBSPOT_CLIENT_ID=cid"; "HUBSPOT_ACCESS_TOKEN=a"; "HUBSPOT_REFRESH_TOKEN=ref1";
     "HUBSPOT_TOKEN_EXPIRES_AT=5"; "OUTPUT_DIR=./data"; "";
     "HUBSPOT_REFRESH_TOKEN=ref0"; "HUBSPOT_TOKEN_EXPIRES_AT=900"; "OUTPUT_DIR=./data"; ""].
Proof. vm_compute. reflexivity. Qed.


(** ** Refreshing when the tokens cannot be persisted *)

(** C10. [updateEnvFile] always returns, whatever the file system does.
    When the token exchange succeeds, [refreshAccessToken] returns the new
    access token and [config] holds the new tokens and expiry, also when
    [.env] cannot be read or written; after a failed write the files are
    what they were, so [config] and [.env] can differ, as they do after a
    refresh in [world_write_fails]. *)
Theorem refresh_survives_failed_persist :
  (forall (tokens : Tokens) (w : World),
      exists w', Sync.updateEnvFile tokens w = Return tt w')
  /\ (forall (w : World) (r : TokenResponse) (ts : list (Answer TokenResponse)),
        token_answers w = Ok r :: ts ->
        exists w',
          Sync.refreshAccessToken w = Return (res_accessToken r) w'
          /\ cfg_accessToken (config w') = res_accessToken r
          /\ cfg_refreshToken (config w') = res_refreshToken r
          /\ cfg_tokenExpiresAt (config w') = Some (now w + res_expiresIn r * 1000)%Z
          /\ (is_Some (fs_fault w) -> files w' = files w))
  /\ (exists w',
        Sync.refreshAccessToken world_write_fails = Return (Some "tok1") w'
        /\ cfg_accessToken (config w') = Some "tok1"
        /\ files w' !! ".env" = Some dotenv_before).
Proof.
  split; [|split].
  - intros tokens w. destruct (updateEnvFile_frame tokens w) as (w' & Hrun & _). by exists w'.
  - intros w r ts Hw. pose proof (refreshAccessToken_cases w) as Hcases. rewrite Hw in Hcases.
    destruct Hcases as (w' & Hrun & Hw'). exists w'. by destruct Hw'.
  - eexists. vm_compute. done.
Qed.

Lemma refresh_survives_failed_persist_witness :
  exists w',
    Sync.refreshAccessToken world_write_fails = Return (Some "tok1") w'
    /\ cfg_accessToken (config w') = Some "tok1"
    /\ cfg_refreshToken (config w') = Some "ref1"
    /\ cfg_tokenExpiresAt (config w') = Some 1801000%Z
    /\ (is_Some (fs_fault world_write_fails) -> files w' = files world_write_fails).
Proof.
  destruct refresh_survives_failed_persist as (_ & Hrefresh & _).
  apply (Hrefresh world_write_fails (mkTokenResponse (Some "tok1") (Some "ref1") 1800) []).
  reflexivity.
Defined.

(** * Further properties of the export script *)

(** ** Failures while listing deals *)

(** The loop over pages that have a next cursor. *)
Lemma getAllDeals_loop_prefix (pre : list PageResponse) :
  forall (answers : list (Answer PageResponse))
         (after_ : option string) (deals : list Deal) (w : World),
    Forall (fun r => is_Some (Sync.next_page r)) pre ->
    exists w1 after1 requests,
      Sync.getAllDeals_loop (map Ok pre ++ answers) after_ deals w
      = Sync.getAllDeals_loop answers after1 (deals ++ concat (map results pre)) w1
      /\ after_ :: map cursor_after pre = requests ++ [after1]
      /\ calls w1 = calls w ++ page_requests w requests
      /\ config w1 = config w /\ bearer w1 = bearer w /\ files w1 = files w
      /\ token_answers w1 = token_answers w /\ fs_fault w1 = fs_fault w
      /\ now w1 = now w
      /\ association_answers w1 = association_answers w
      /\ batch_answers w1 = batch_answers w.
Proof.
  induction pre as [|p pre IH]; intros answers after_ deals w Hpre.
  - exists w, after_, []. cbn. by rewrite !app_nil_r.
  - apply Forall_cons in Hpre as [[n Hn] Hpre].
    cbn [map app Sync.getAllDeals_loop]. rewrite Hn.
    set (w0 := call _ _).
    destruct (IH answers (Some (after n)) (deals ++ results p) w0 Hpre)
      as (w1 & after1 & requests & Hrun & Hreq & Hcalls & Hcfg & Hb & Hrest).
    exists w1, after1, (after_ :: requests). rewrite Hrun.
    split; [by cbn; rewrite <- !app_assoc|]. split.
    { cbn [map app]. f_equal. rewrite <- Hreq. unfold cursor_after at 1. by rewrite Hn. }
    split; [|done].
    rewrite Hcalls. cbn. by rewrite <- app_assoc.
Qed.

Lemma getAllDeals_loop_fails (pre : list PageResponse) :
  forall (e : Error) (rest : list (Answer PageResponse))
         (after_ : option string) (deals : list Deal) (w : World),
    Forall (fun r => is_Some (Sync.next_page r)) pre ->
    exists w1,
      Sync.getAllDeals_loop (map Ok pre ++ Failed e :: rest) after_ deals w
      = (if Sync.token_expired e w then
           match Sync.refreshAccessToken w1 with
           | Return newToken w2 =>
               Sync.getAllDeals_loop rest (default after_ (last (map cursor_after pre)))
                 (deals ++ concat (map results pre)) (setAccessToken newToken w2)
           | Throw refreshError w2 => Throw refreshError w2
           | Pending => Pending
           end
         else Throw e w1)
      /\ page_answers w1 = rest
      /\ calls w1 = calls w ++ page_requests w (after_ :: map cursor_after pre)
      /\ config w1 = config w /\ bearer w1 = bearer w /\ files w1 = files w
      /\ token_answers w1 = token_answers w /\ fs_fault w1 = fs_fault w /\ now w1 = now w.
Proof.
  intros e rest after_ deals w Hpre.
  destruct (getAllDeals_loop_prefix pre (Failed e :: rest) after_ deals w Hpre)
    as (w0 & after1 & requests & Hrun & Hreq & Hcalls & Hcfg & Hb & Hf & Ht & Hfault
        & Hnow & _).
  rewrite Hrun. cbn [Sync.getAllDeals_loop]. set (w1 := call _ _).
  assert (Hafter : default after_ (last (map cursor_after pre)) = after1).
  { destruct (map cursor_after pre) as [|c cs] eqn:Hcs using rev_ind.
    - destruct requests as [|? [|? ?]]; cbn in Hreq; by simplify_eq.
    - rewrite last_snoc. cbn. rewrite app_comm_cons in Hreq.
      by apply app_inj_tail in Hreq as [_ ->]. }
  exists w1. split.
  - change (Sync.token_expired e w1) with (Sync.token_expired e w0).
    unfold Sync.token_expired. rewrite Hcfg, Hafter. done.
  - rewrite Hreq. unfold page_requests. rewrite map_app. cbn.
    rewrite Hcalls, Hcfg, Hb. unfold page_requests. by rewrite <- app_assoc.
Qed.

(** X1. A failure that is not an expired token with a refresh token at hand
    ends [getAllDeals] with that error: the deals of the pages before it are
    not returned, the later answers are not asked for, and neither [config]
    nor a file is touched. *)
Theorem getAllDeals_other_failure_is_fatal :
  forall (w : World) (pre : list PageResponse) (e : Error)
         (rest : list (Answer PageResponse)),
    page_answers w = map Ok pre ++ Failed e :: rest ->
    Forall (fun r => is_Some (Sync.next_page r)) pre ->
    Sync.token_expired e w = false ->
    exists w',
      Sync.getAllDeals w = Throw e w'
      /\ page_answers w' = rest
      /\ calls w' = calls w ++ page_requests w (None :: map cursor_after pre)
      /\ config w' = config w /\ bearer w' = bearer w /\ files w' = files w
      /\ token_answers w' = token_answers w.
Proof.
  intros w pre e rest Hw Hpre Hexp. unfold Sync.getAllDeals. rewrite Hw.
  destruct (getAllDeals_loop_fails pre e rest None [] w Hpre)
    as (w1 & Hrun & Hrest & Hcalls & Hcfg & Hb & Hf & Ht & _).
  rewrite Hexp in Hrun. by exists w1.
Qed.

Lemma getAllDeals_other_failure_is_fatal_witness :
  exists w',
    Sync.getAllDeals world_500_on_page2 = Throw e500 w'
    /\ page_answers w' = [Ok page2]
    /\ calls w' = calls world_500_on_page2
                  ++ page_requests world_500_on_page2 (None :: map cursor_after [page1])
    /\ config w' = config world_500_on_page2 /\ bearer w' = bearer world_500_on_page2
    /\ files w' = files world_500_on_page2
    /\ token_answers w' = token_answers world_500_on_page2.
Proof.
  apply (getAllDeals_other_failure_is_fatal world_500_on_page2 [page1] e500 [Ok page2]).
  - reflexivity.
  - repeat constructor. by eexists.
  - reflexivity.
Defined.

(** X2. When the token exchange that follows a 401 fails, [getAllDeals] ends
    with the error of the exchange, not with the 401; the tokens in
    [config], the token of the client and the files are what they were. *)
Theorem getAllDeals_failed_refresh_is_fatal :
  forall (w : World) (pre : list PageResponse) (e e' : Error)
         (rest : list (Answer PageResponse)) (ts : list (Answer TokenResponse)),
    page_answers w = map Ok pre ++ Failed e :: rest ->
    Forall (fun r => is_Some (Sync.next_page r)) pre ->
    Sync.token_expired e w = true ->
    token_answers w = Failed e' :: ts ->
    exists w',
      Sync.getAllDeals w = Throw e' w'
      /\ config w' = config w /\ bearer w' = bearer w /\ files w' = files w
      /\ token_answers w' = ts
      /\ count_calls is_token_call (calls w') = S (count_calls is_token_call (calls w)).
Proof.
  intros w pre e e' rest ts Hw Hpre Hexp Htok. unfold Sync.getAllDeals. rewrite Hw.
  destruct (getAllDeals_loop_fails pre e rest None [] w Hpre)
    as (w1 & Hrun & Hrest & Hcalls & Hcfg & Hb & Hf & Ht & _).
  rewrite Hexp in Hrun. pose proof (refreshAccessToken_cases w1) as Hcases.
  rewrite Ht, Htok in Hcases. rewrite Hcases in Hrun.
  assert (Hpages : forall cursors, count_calls is_token_call (page_requests w cursors) = 0).
  { intros cursors. induction cursors as [|c cursors IH]; [done|].
    cbn [page_requests map]. by rewrite count_calls_cons. }
  eexists. split; [exact Hrun|].
  cbn [config bearer files token_answers calls call set_token_answers].
  repeat (split; [done|]).
  rewrite Hcalls, !count_calls_app, Hpages, count_calls_cons. cbn [is_token_call].
  change (count_calls is_token_call []) with 0. lia.
Qed.

Lemma getAllDeals_failed_refresh_is_fatal_witness :
  exists w',
    Sync.getAllDeals world_401_refresh_fails = Throw e500 w'
    /\ config w' = config world_401_refresh_fails
    /\ bearer w' = bearer world_401_refresh_fails
    /\ files w' = files world_401_refresh_fails
    /\ token_answers w' = []
    /\ count_calls is_token_call (calls w')
       = S (count_calls is_token_call (calls world_401_refresh_fails)).
Proof.
  apply (getAllDeals_failed_refresh_is_fatal world_401_refresh_fails [page1] e401 e500
           [Ok page2] []).
  - reflexivity.
  - repeat constructor. by eexists.
  - reflexivity.
  - reflexivity.
Defined.

(** ** The tokens after a refresh *)

(** [config] after a successful refresh: the three token fields are
    replaced, the rest is kept. *)
Lemma refreshAccessToken_config (w : World) (r : TokenResponse)
    (ts : list (Answer TokenResponse)) :
  token_answers w = Ok r :: ts ->
  exists w',
    Sync.refreshAccessToken w = Return (res_accessToken r) w'
    /\ config w'
       = mkConfig (res_accessToken r) (res_refreshToken r)
           (cfg_clientId (config w)) (cfg_clientSecret (config w))
           (Some (now w + res_expiresIn r * 1000)%Z) (cfg_outputDir (config w))
           (cfg_batchSize (config w)) (cfg_includeAssociations (config w))
    /\ refreshed r w w'.
Proof.
  intros Hw. pose proof (refreshAccessToken_cases w) as Hcases. rewrite Hw in Hcases.
  destruct Hcases as (w' & Hrun & Hw'). exists w'. split; [done|]. split; [|done].
  revert Hrun. unfold Sync.refreshAccessToken. unfold_js. rewrite Hw.
  set (tokens := mkTokens _ _ _). set (w1 := set_config _ _).
  destruct (updateEnvFile_frame tokens w1) as (w2 & -> & Hfs).
  intros [= <-]. by rewrite (fs_config _ _ Hfs).
Qed.

Lemma getAllDeals_loop_first_call (a : Answer PageResponse)
    (answers : list (Answer PageResponse)) (after_ : option string)
    (deals : list Deal) (w w' : World) :
  world_of (Sync.getAllDeals_loop (a :: answers) after_ deals w) = Some w' ->
  exists cs, calls w' = calls w ++ GetPage (cfg_batchSize (config w)) after_ (bearer w) :: cs.
Proof.
  cbn [Sync.getAllDeals_loop]. set (w0 := call _ _).
  assert (Hgrow : forall w1 : World,
             (exists cs1, calls w1 = calls w0 ++ cs1) ->
             Some w1 = Some w' ->
             exists cs0,
               calls w' = calls w ++ GetPage (cfg_batchSize (config w)) after_ (bearer w) :: cs0).
  { intros w1 [cs1 Hcs1] [= <-]. exists cs1. rewrite Hcs1. cbn. by rewrite <- app_assoc. }
  destruct a as [response|e].
  - destruct (Sync.next_page response) as [n|].
    + intros Hw'. destruct (getAllDeals_loop_retry_cursor _ _ _ _ _ Hw') as (cs1 & Hcs1 & _).
      apply (Hgrow w'); [by exists cs1|done].
    + intros Hw'. apply (Hgrow w0); [|done]. exists []. by rewrite app_nil_r.
  - destruct (Sync.token_expired e w0).
    + pose proof (refreshAccessToken_cases w0) as Hcases.
      destruct (token_answers w0) as [|[r|e'] ts].
      * by rewrite Hcases.
      * destruct Hcases as (w2 & -> & Hw2). intros Hw'.
        destruct (getAllDeals_loop_retry_cursor _ _ _ _ _ Hw') as (cs1 & Hcs1 & _).
        destruct (rf_calls _ _ _ Hw2) as (fs & Hfs & _).
        apply (Hgrow w'); [|done]. eexists. rewrite Hcs1. cbn. rewrite Hfs.
        by rewrite <- app_assoc.
      * rewrite Hcases. intros Hw'. eapply Hgrow; [|exact Hw']. by eexists [_].
    + intros Hw'. apply (Hgrow w0); [|done]. exists []. by rewrite app_nil_r.
Qed.

(** X3. After the 401 of a page and a successful refresh, the page is
    requested again with the access token the exchange returned, and that
    token is in [config]. *)
Theorem getAllDeals_retries_with_new_token :
  forall (w : World) (pre : list PageResponse) (e : Error) (a : Answer PageResponse)
         (rest : list (Answer PageResponse)) (r : TokenResponse)
         (ts : list (Answer TokenResponse)) (w' : World),
    page_answers w = map Ok pre ++ Failed e :: a :: rest ->
    Forall (fun p => is_Some (Sync.next_page p)) pre ->
    Sync.token_expired e w = true ->
    token_answers w = Ok r :: ts ->
    world_of (Sync.getAllDeals w) = Some w' ->
    exists fs cs,
      calls w'
      = calls w ++ page_requests w (None :: map cursor_after pre)
        ++ TokensCreate (cfg_clientId (config w)) (cfg_clientSecret (config w))
             (cfg_refreshToken (config w))
           :: fs
        ++ GetPage (cfg_batchSize (config w)) (default None (last (map cursor_after pre)))
             (res_accessToken r)
           :: cs
      /\ forallb is_fs_call fs = true.
Proof.
  intros w pre e a rest r ts w' Hw Hpre Hexp Htok. unfold Sync.getAllDeals. rewrite Hw.
  destruct (getAllDeals_loop_fails pre e (a :: rest) None [] w Hpre)
    as (w1 & Hrun & Hrest & Hcalls & Hcfg & Hb & Hf & Ht & _).
  rewrite Hexp in Hrun. rewrite Hrun.
  destruct (refreshAccessToken_config w1 r ts) as (w2 & -> & Hcfg2 & Hw2); [congruence|].
  intros Hw'. apply getAllDeals_loop_first_call in Hw' as (cs & Hcs).
  destruct (rf_calls _ _ _ Hw2) as (fs & Hfs & Hfs_only).
  exists fs, cs. split; [|done].
  rewrite Hcs. cbn [calls config bearer setAccessToken]. rewrite Hfs, Hcalls, Hcfg2, Hcfg.
  cbn [cfg_batchSize]. by rewrite <- !app_assoc.
Qed.

Lemma getAllDeals_retries_with_new_token_witness :
  exists fs cs,
    (calls <$> world_of (Sync.getAllDeals world_401_on_page2))
    = Some (calls world_401_on_page2
            ++ page_requests world_401_on_page2 (None :: map cursor_after [page1])
            ++ TokensCreate (Some "cid") (Some "sec") (Some "ref0")
               :: fs ++ GetPage 100 (Some "c1") (Some "tok1") :: cs)
    /\ forallb is_fs_call fs = true.
Proof.
  destruct (Sync.getAllDeals world_401_on_page2) as [deals w'|e w'|] eqn:Hrun;
    [|vm_compute in Hrun; discriminate..].
  destruct (getAllDeals_retries_with_new_token world_401_on_page2 [page1] e401 (Ok page2) []
              (mkTokenResponse (Some "tok1") (Some "ref1") 1800) [] w')
    as (fs & cs & Hcalls & Hfs).
  - reflexivity.
  - repeat constructor. by eexists.
  - reflexivity.
  - reflexivity.
  - by rewrite Hrun.
  - exists fs, cs. split; [|done]. cbn [world_of fmap option_fmap option_map]. f_equal.
    exact Hcalls.
Defined.

(** X4. Refresh tokens rotate: the refresh that follows a successful one sends
    the refresh token that one received, with the client id and secret as
    before. *)
Theorem refreshAccessToken_rotates :
  forall (w : World) (r1 : TokenResponse) (a2 : Answer TokenResponse)
         (ts : list (Answer TokenResponse)),
    token_answers w = Ok r1 :: a2 :: ts ->
    exists w1,
      Sync.refreshAccessToken w = Return (res_accessToken r1) w1
      /\ forall tok, exists w2 cs,
          world_of (Sync.refreshAccessToken (setAccessToken tok w1)) = Some w2
          /\ calls w2
             = calls w1
               ++ TokensCreate (cfg_clientId (config w)) (cfg_clientSecret (config w))
                    (res_refreshToken r1) :: cs.
Proof.
  intros w r1 a2 ts Hw.
  destruct (refreshAccessToken_config w r1 (a2 :: ts) Hw) as (w1 & Hrun & Hcfg & Hw1).
  exists w1. split; [done|]. intros tok.
  pose proof (refreshAccessToken_cases (setAccessToken tok w1)) as Hcases.
  cbn [token_answers setAccessToken] in Hcases.
  rewrite (rf_tokens _ _ _ Hw1), Hw in Hcases. cbn [tail] in Hcases.
  destruct a2 as [r2|e2].
  - destruct Hcases as (w2 & Hrun2 & Hw2).
    destruct (rf_calls _ _ _ Hw2) as (cs & Hcs & _).
    exists w2, cs. rewrite Hrun2. split; [done|].
    rewrite Hcs. cbn [calls config setAccessToken]. by rewrite Hcfg.
  - rewrite Hcases. eexists _, []. split; [done|].
    cbn [calls call set_token_answers setAccessToken config]. by rewrite Hcfg.
Qed.

Lemma refreshAccessToken_rotates_witness :
  exists w1,
    Sync.refreshAccessToken world_two_401 = Return (Some "tok1") w1
    /\ forall tok, exists w2 cs,
        world_of (Sync.refreshAccessToken (setAccessToken tok w1)) = Some w2
        /\ calls w2 = calls w1 ++ TokensCreate (Some "cid") (Some "sec") (Some "ref1") :: cs.
Proof.
  apply (refreshAccessToken_rotates world_two_401
           (mkTokenResponse (Some "tok1") (Some "ref1") 1800)
           (Ok (mkTokenResponse (Some "tok2") (Some "ref2") 1800)) []).
  reflexivity.
Defined.

(** ** The records of [getDealActivities] *)

Lemma batch_loop_frame (objectType : string) (rs : list Association) (ids : list string)
    (answers : list (Answer BatchResponse)) :
  forall (i : nat) (fullObjects : list CrmObject) (w w' : World),
    world_of (Sync.batch_loop answers objectType rs ids i fullObjects w) = Some w' ->
    batch_step w w'
    /\ exists cs, calls w' = calls w ++ cs /\ count_calls is_token_call cs = 0.
Proof.
  assert (Hrefl : forall w, batch_step w w
            /\ exists cs, calls w = calls w ++ cs /\ count_calls is_token_call cs = 0).
  { intros w. split; [by split|]. exists []. by rewrite app_nil_r. }
  induction answers as [|a answers IH]; intros i fullObjects w w';
    cbn [Sync.batch_loop]; (destruct (i <? length ids); [|by intros [= <-]]);
    (destruct (Sync.batch_api objectType) as [api|]; [|by intros [= <-]]); [done|].
  set (w1 := call _ _).
  assert (Hnext : forall full,
            world_of (Sync.batch_loop answers objectType rs ids (i + Sync.batchSize) full w1)
            = Some w' ->
            batch_step w w'
            /\ exists cs, calls w' = calls w ++ cs /\ count_calls is_token_call cs = 0).
  { intros full Hw'. apply IH in Hw' as [Hstep (cs & Hcs & Hcount)]. split.
    - destruct Hstep. by split.
    - eexists (_ :: cs). split; [rewrite Hcs; cbn; by rewrite <- app_assoc|].
      by rewrite count_calls_cons. }
  destruct a as [[[objs|]]|e]; cbn [b_results]; apply Hnext.
Qed.

(** A call of [getAssociatedObjects] uses up token answers from the front
    only, and raises with one of them. *)
Lemma getAssociatedObjects_from_tokens (dealId objectType : string)
    (answers : list (Answer AssociationsResponse)) :
  forall (w w' : World),
    world_of (Sync.getAssociatedObjects_from answers dealId objectType w) = Some w' ->
    token_answers w' `suffix_of` token_answers w.
Proof.
  induction answers as [|a answers IH]; intros w w'; [done|].
  cbn [Sync.getAssociatedObjects_from]. set (w1 := call _ _).
  destruct a as [[[[|r rs]|]]|e]; cbn [a_results].
  - by intros [= <-].
  - intros Hw'. apply batch_loop_frame in Hw' as [Hstep _].
    by rewrite (bs_tokens _ _ Hstep).
  - by intros [= <-].
  - destruct (Sync.token_expired e w1); [|by intros [= <-]].
    pose proof (refreshAccessToken_cases w1) as Hcases.
    change (token_answers w1) with (token_answers w) in Hcases.
    destruct (token_answers w) as [|[r|e'] ts] eqn:Hts.
    + by rewrite Hcases.
    + destruct Hcases as (w2 & -> & Hw2). intros Hw'. apply IH in Hw'.
      cbn [token_answers setAccessToken] in Hw'. rewrite (rf_tokens _ _ _ Hw2) in Hw'.
      change (token_answers w1) with (token_answers w) in Hw'. rewrite Hts in Hw'.
      by apply suffix_cons_r.
    + rewrite Hcases. intros [= <-]. by apply suffix_cons_r.
Qed.

Lemma resolve_types_records (dealId : string) (types : list string) :
  Forall (fun type => is_Some (Sync.batch_api type)) types ->
  forall (activity_types : gmap string Resolution) (w : World),
    map_Forall (fun _ data => is_record data) activity_types ->
    match Sync.resolve_types types dealId activity_types w with
    | Return result w' =>
        map_Forall (fun _ data => is_record data) result
        /\ token_answers w' `suffix_of` token_answers w
    | Throw e _ => Failed e ∈ token_answers w
    | Pending => True
    end.
Proof.
  induction types as [|type types IH]; intros Htypes acts w Hacts; [done|].
  apply Forall_cons in Htypes as [[api Hapi] Htypes].
  cbn [Sync.resolve_types]. unfold bind, Sync.getAssociatedObjects.
  pose proof (getAssociatedObjects_from_outcome dealId type (association_answers w) w)
    as Hout.
  pose proof (getAssociatedObjects_from_tokens dealId type (association_answers w) w)
    as Hsuffix.
  destruct (Sync.getAssociatedObjects_from _ _ _ _) as [res w1|e w1|]; [| |done].
  - specialize (Hsuffix w1 eq_refl).
    specialize (IH Htypes (<[type := res]> acts) w1).
    destruct (Sync.resolve_types _ _ _ _) as [result w'|e w'|]; [| |done].
    + destruct IH as [Hresult Hsuffix'].
      * apply map_Forall_insert_2; [|done]. destruct res as [r|l]; [done|].
        destruct Hout as [Hnone _]. congruence.
      * split; [done|]. by etrans.
    + assert (Hin : Failed e ∈ token_answers w1).
      { apply IH. apply map_Forall_insert_2; [|done]. destruct res as [r|l]; [done|].
        destruct Hout as [Hnone _]. congruence. }
      destruct Hsuffix as [pre ->]. apply elem_of_app. by right.
  - by destruct Hout.
Qed.

Lemma activityTypes_recognized :
  Forall (fun type => is_Some (Sync.batch_api type)) Sync.activityTypes.
Proof. repeat constructor; by eexists. Qed.

(** X5. In every record [getDealActivities] returns, each of the five entries
    is a record with [associations] and [objects], never a bare list; and
    an [error] field holds the message of a failed token exchange. *)
Theorem getDealActivities_entries_are_records :
  forall (dealId : string) (w : World) (r : ActivityRecord) (w' : World),
    Sync.getDealActivities dealId w = Return r w' ->
    (forall type, type ∈ Sync.activityTypes ->
       exists a, activity_types r !! type = Some (Full a))
    /\ (forall msg, error r = Some msg ->
          exists e, Failed e ∈ token_answers w /\ message e = msg).
Proof.
  intros dealId w r w'.
  pose proof (resolve_types_records dealId Sync.activityTypes activityTypes_recognized ∅ w
                (map_Forall_empty _)) as Hrecords.
  pose proof (resolve_types_outcome dealId Sync.activityTypes ∅ w) as Hdom.
  unfold Sync.getDealActivities. unfold_js.
  destruct (Sync.resolve_types Sync.activityTypes dealId ∅ w) as [acts w1|e w1|]; [| |done].
  - intros [= <- <-]. cbn [activity_types error]. split; [|done].
    destruct Hrecords as [Hrecords _].
    intros type Htype.
    assert (Hin : type ∈ dom acts) by (rewrite Hdom; set_solver).
    apply elem_of_dom in Hin as [data Hdata].
    specialize (Hrecords type data Hdata). destruct data as [a|l]; [by exists a|done].
  - intros [= <- <-]. cbn [activity_types error]. split.
    + intros type Htype. unfold Sync.activityTypes in Htype. exists (mkAssociated [] []).
      repeat (apply elem_of_cons in Htype as [->|Htype]; [by simplify_map_eq|]).
      by apply elem_of_nil in Htype.
    + intros msg [= <-]. by exists e.
Qed.

Lemma getDealActivities_entries_are_records_witness :
  exists r w',
    Sync.getDealActivities "d1" world_refresh_fails = Return r w'
    /\ (forall type, type ∈ Sync.activityTypes ->
          exists a, activity_types r !! type = Some (Full a))
    /\ (forall msg, error r = Some msg ->
          exists e, Failed e ∈ token_answers world_refresh_fails /\ message e = msg).
Proof.
  destruct (Sync.getDealActivities "d1" world_refresh_fails) as [r w'|e w'|] eqn:Hrun;
    [|vm_compute in Hrun; discriminate..].
  exists r, w'. split; [done|].
  exact (getDealActivities_entries_are_records "d1" world_refresh_fails r w' Hrun).
Defined.

(** ** Without a refresh token *)

Lemma getAssociatedObjects_from_no_refresh (dealId objectType : string)
    (answers : list (Answer AssociationsResponse)) (w : World) :
  truthy (cfg_refreshToken (config w)) = false ->
  match Sync.getAssociatedObjects_from answers dealId objectType w with
  | Return _ w' =>
      config w' = config w /\ token_answers w' = token_answers w
      /\ bearer w' = bearer w /\ files w' = files w
      /\ association_answers w' = tail answers
      /\ exists cs, calls w' = calls w ++ cs /\ count_calls is_token_call cs = 0
  | Throw _ _ => False
  | Pending => True
  end.
Proof.
  intros Hfalsy. destruct answers as [|a answers]; [done|].
  cbn [Sync.getAssociatedObjects_from]. set (w1 := call _ _).
  assert (Hw1 : exists cs, calls w1 = calls w ++ cs /\ count_calls is_token_call cs = 0).
  { by eexists [_]. }
  destruct a as [[[[|r rs]|]]|e]; cbn [a_results]; try done.
  - pose proof (batch_loop_outcome objectType (r :: rs) (map toObjectId (r :: rs))
                  (batch_answers w1) 0 [] w1) as Hout.
    pose proof (batch_loop_frame objectType (r :: rs) (map toObjectId (r :: rs))
                  (batch_answers w1) 0 [] w1) as Hframe.
    destruct (Sync.batch_loop _ _ _ _ _ _ _) as [res w'|e w'|]; [| |done].
    + destruct (Hframe w' eq_refl) as [Hstep (cs & Hcs & Hcount)]. destruct Hstep.
      repeat (split; [done|]). eexists (_ :: cs).
      split; [rewrite Hcs; cbn; by rewrite <- app_assoc|]. by rewrite count_calls_cons.
    + done.
  - rewrite token_expired_auth.
    change (cfg_refreshToken (config w1)) with (cfg_refreshToken (config w)).
    rewrite Hfalsy, andb_false_r. done.
Qed.

(** X6. Without a refresh token in [config] (a private-app token),
    [getDealActivities] makes no token exchange and keeps [config] and the
    client's token; a listing that fails, with a 401 or otherwise, counts as
    empty, and the record carries no [error] field. *)
Theorem getDealActivities_without_refresh_token :
  forall (dealId : string) (w : World),
    truthy (cfg_refreshToken (config w)) = false ->
    (forall objectType e w',
        Sync.getAssociatedObjects dealId objectType w <> Throw e w')
    /\ (forall e rest objectType,
          association_answers w = Failed e :: rest ->
          exists w',
            Sync.getAssociatedObjects dealId objectType w
            = Return (Full (mkAssociated [] [])) w')
    /\ (forall r w',
          Sync.getDealActivities dealId w = Return r w' ->
          error r = None
          /\ config w' = config w /\ bearer w' = bearer w
          /\ token_answers w' = token_answers w
          /\ exists cs, calls w' = calls w ++ cs /\ count_calls is_token_call cs = 0).
Proof.
  intros dealId w Hfalsy. split; [|split].
  - intros objectType e w' Hrun.
    pose proof (getAssociatedObjects_from_no_refresh dealId objectType
                  (association_answers w) w Hfalsy) as Hno.
    unfold Sync.getAssociatedObjects in Hrun. by rewrite Hrun in Hno.
  - intros e rest objectType Hw. unfold Sync.getAssociatedObjects. rewrite Hw.
    cbn [Sync.getAssociatedObjects_from]. rewrite token_expired_auth.
    cbn [config call set_association_answers]. rewrite Hfalsy, andb_false_r. by eexists.
  - assert (Hloop : forall types acts w0,
              truthy (cfg_refreshToken (config w0)) = false ->
              match Sync.resolve_types types dealId acts w0 with
              | Return _ w' =>
                  config w' = config w0 /\ bearer w' = bearer w0
                  /\ token_answers w' = token_answers w0
                  /\ exists cs, calls w' = calls w0 ++ cs
                                /\ count_calls is_token_call cs = 0
              | Throw _ _ => False
              | Pending => True
              end).
    { induction types as [|type types IH]; intros acts w0 Hw0.
      - cbn. repeat (split; [done|]). exists []. by rewrite app_nil_r.
      - cbn [Sync.resolve_types]. unfold bind, Sync.getAssociatedObjects.
        pose proof (getAssociatedObjects_from_no_refresh dealId type
                      (association_answers w0) w0 Hw0) as Hno.
        destruct (Sync.getAssociatedObjects_from _ _ _ _) as [res w1|e w1|]; [|done..].
        destruct Hno as (Hcfg & Htok & Hb & _ & _ & cs1 & Hcs1 & Hcount1).
        specialize (IH (<[type := res]> acts) w1). rewrite Hcfg in IH. specialize (IH Hw0).
        destruct (Sync.resolve_types _ _ _ _) as [result w'|e w'|]; [|done..].
        destruct IH as (Hcfg' & Hb' & Htok' & cs2 & Hcs2 & Hcount2).
        split; [congruence|]. split; [congruence|]. split; [congruence|].
        exists (cs1 ++ cs2). split; [by rewrite Hcs2, Hcs1, <- app_assoc|].
        rewrite count_calls_app. lia. }
    intros r w'. specialize (Hloop Sync.activityTypes ∅ w Hfalsy).
    unfold Sync.getDealActivities. unfold_js.
    destruct (Sync.resolve_types Sync.activityTypes dealId ∅ w) as [acts w1|e w1|];
      [|done..].
    by intros [= <- <-].
Qed.

Lemma getDealActivities_without_refresh_token_witness :
  exists r w',
    Sync.getDealActivities "d1" world_private_app = Return r w'
    /\ error r = None
    /\ config w' = config world_private_app /\ bearer w' = bearer world_private_app
    /\ token_answers w' = token_answers world_private_app
    /\ exists cs, calls w' = calls world_private_app ++ cs
                  /\ count_calls is_token_call cs = 0.
Proof.
  destruct (Sync.getDealActivities "d1" world_private_app) as [r w'|e w'|] eqn:Hrun;
    [|vm_compute in Hrun; discriminate..].
  exists r, w'. split; [done|].
  destruct (getDealActivities_without_refresh_token "d1" world_private_app) as (_ & _ & H).
  - reflexivity.
  - by apply H.
Defined.

(** ** A deal whose resolution was cut short *)

(** X7. When the record of a deal carries an [error] field, the round of the
    export loop writes no file for the deal and goes on: what was resolved
    before the failure is dropped. *)
Theorem export_deal_drops_failed_resolution :
  forall (deal : Deal) (w : World) (activities : ActivityRecord) (w1 : World),
    Sync.getDealActivities (d_id deal) w = Return activities w1 ->
    error activities <> None ->
    Sync.export_deal deal w = Return tt w1
    /\ ~ has_engagement activities
    /\ exists cs, calls w1 = calls w ++ cs /\ activity_writes cs = [].
Proof.
  intros deal w activities w1 Hrun Herror.
  destruct (getDealActivities_returns _ _ _ _ Hrun) as [_ [_ Hquiet]].
  assert (Hnone : Sync.hasActivities activities = false).
  { revert Hrun Herror. unfold Sync.getDealActivities. unfold_js.
    destruct (Sync.resolve_types _ _ _ _) as [acts w'|e w'|]; [| |done];
      intros [= <- <-]; [done|]. intros _. reflexivity. }
  split; [|split; [|done]].
  - by apply (export_deal_round deal w activities w1 Hrun).
  - rewrite <- hasActivities_engagement, Hnone. done.
Qed.

Lemma export_deal_drops_failed_resolution_witness :
  exists w1,
    Sync.export_deal (mkDeal "d1" []) world_note_then_refresh_fails = Return tt w1
    /\ written_paths (calls w1) = [].
Proof.
  destruct (Sync.getDealActivities "d1" world_note_then_refresh_fails)
    as [activities w1|e w1|] eqn:Hrun; [|vm_compute in Hrun; discriminate..].
  exists w1.
  destruct (export_deal_drops_failed_resolution (mkDeal "d1" [])
              world_note_then_refresh_fails activities w1 Hrun) as (Hexport & _ & _).
  - vm_compute in Hrun. injection Hrun as <- _. discriminate.
  - split; [exact Hexport|]. vm_compute in Hrun. by injection Hrun as _ <-.
Defined.

(** ** The export run *)

Lemma suffices_from_le (k k' : nat) (answers : list (Answer AssociationsResponse))
    (w : World) :
  k' <= k -> suffices_from k answers w -> suffices_from k' answers w.
Proof. intros Hle (Hlen & Htok & Hbatch). repeat split; lia. Qed.

Lemma getAssociatedObjects_from_fault (dealId objectType : string)
    (answers : list (Answer AssociationsResponse)) :
  forall (w w' : World),
    world_of (Sync.getAssociatedObjects_from answers dealId objectType w) = Some w' ->
    fs_fault w' = fs_fault w.
Proof.
  induction answers as [|a answers IH]; intros w w'; [done|].
  cbn [Sync.getAssociatedObjects_from]. set (w1 := call _ _).
  destruct a as [[[[|r rs]|]]|e]; cbn [a_results].
  - by intros [= <-].
  - intros Hw'. apply batch_loop_frame in Hw' as [Hstep _]. by rewrite (bs_fault _ _ Hstep).
  - by intros [= <-].
  - destruct (Sync.token_expired e w1); [|by intros [= <-]].
    pose proof (refreshAccessToken_cases w1) as Hcases.
    destruct (token_answers w1) as [|[r|e'] ts].
    + by rewrite Hcases.
    + destruct Hcases as (w2 & -> & Hw2). intros Hw'. apply IH in Hw'.
      cbn [fs_fault setAccessToken] in Hw'. by rewrite Hw', (rf_fault _ _ _ Hw2).
    + rewrite Hcases. by intros [= <-].
Qed.

(** A token exchange that fails leaves the answers of the next calls in
    place. *)
Lemma getAssociatedObjects_from_throw (dealId objectType : string) (k : nat)
    (answers : list (Answer AssociationsResponse)) :
  forall (w : World) (e : Error) (w' : World),
    suffices_from k answers w ->
    Sync.getAssociatedObjects_from answers dealId objectType w = Throw e w' ->
    suffices k w'.
Proof.
  unfold suffices.
  induction answers as [|a answers IH]; intros w e0 w' (Hlen & Htok & Hbatch); [done|].
  rewrite count_401_cons in Hlen, Htok. cbn [length map sum_list] in Hlen, Hbatch.
  cbn [Sync.getAssociatedObjects_from]. set (w1 := call _ _).
  destruct a as [[[[|r rs]|]]|e]; cbn [a_results]; try done.
  - pose proof (batch_loop_outcome objectType (r :: rs) (map toObjectId (r :: rs))
                  (batch_answers w1) 0 [] w1) as Hout.
    intros Hrun. by rewrite Hrun in Hout.
  - rewrite token_expired_auth.
    destruct (auth_expired e) eqn:He; cbn [andb]; [|done].
    destruct (truthy _); [|done].
    pose proof (refreshAccessToken_cases w1) as Hcases.
    change (token_answers w1) with (token_answers w) in Hcases.
    cbn [is_401] in *. rewrite He in *.
    destruct (token_answers w) as [|[r|e'] ts] eqn:Hts.
    + by rewrite Hcases.
    + destruct Hcases as (w2 & -> & Hw2). apply IH.
      unfold suffices_from. cbn [token_answers batch_answers setAccessToken].
      rewrite (rf_tokens _ _ _ Hw2), (rf_batches _ _ _ Hw2).
      change (token_answers w1) with (token_answers w).
      change (batch_answers w1) with (batch_answers w).
      rewrite Hts. cbn [tail length batch_need] in *. repeat split; lia.
    + rewrite Hcases. intros [= <- <-]. unfold suffices_from.
      cbn [association_answers token_answers batch_answers call set_token_answers
             set_association_answers w1].
      cbn [length batch_need] in *. repeat split; lia.
Qed.

Lemma resolve_types_progress (dealId : string) (m : nat) (types : list string) :
  forall (activity_types : gmap string Resolution) (w : World),
    suffices (length types + m) w ->
    exists w',
      world_of (Sync.resolve_types types dealId activity_types w) = Some w'
      /\ suffices m w' /\ fs_fault w' = fs_fault w.
Proof.
  induction types as [|type types IH]; intros acts w Hw; [by exists w|].
  cbn [Sync.resolve_types]. unfold bind, Sync.getAssociatedObjects.
  cbn [length Nat.add] in Hw.
  pose proof (getAssociatedObjects_from_live dealId type (length types + m)
                (association_answers w) w Hw) as Hlive.
  pose proof (getAssociatedObjects_from_throw dealId type (S (length types + m))
                (association_answers w) w) as Hthrow.
  pose proof (getAssociatedObjects_from_fault dealId type (association_answers w) w)
    as Hfault.
  destruct (Sync.getAssociatedObjects_from _ _ _ _) as [res w1|e w1|]; [| |done].
  - destruct (IH (<[type := res]> acts) w1 Hlive) as (w' & Hrun & Hw' & Hf).
    exists w'. split; [done|]. split; [done|]. rewrite Hf. by apply Hfault.
  - exists w1. split; [done|]. split; [|by apply Hfault].
    eapply suffices_from_le; [|by eapply Hthrow]. lia.
Qed.

Lemma getDealActivities_progress (dealId : string) (m : nat) (w : World) :
  suffices (5 + m) w ->
  exists r w',
    Sync.getDealActivities dealId w = Return r w'
    /\ suffices m w' /\ fs_fault w' = fs_fault w.
Proof.
  intros Hw.
  destruct (resolve_types_progress dealId m Sync.activityTypes ∅ w Hw)
    as (w' & Hrun & Hw' & Hf).
  unfold Sync.getDealActivities. unfold_js.
  destruct (Sync.resolve_types _ _ _ _) as [acts w1|e w1|]; [| |done];
    injection Hrun as ->; by eexists _, w'.
Qed.

Lemma export_deals_progress (deals : list Deal) :
  forall (m : nat) (w : World),
    fs_fault w = None ->
    suffices (5 * length deals + m) w ->
    exists w',
      Sync.export_deals deals w = Return tt w'
      /\ suffices m w' /\ fs_fault w' = None
      /\ length (records_of_run deals w) = length deals.
Proof.
  induction deals as [|deal deals IH]; intros m w Hfault Hw; [by exists w|].
  cbn [Sync.export_deals records_of_run]. unfold bind.
  replace (5 * length (deal :: deals) + m) with (5 + (5 * length deals + m)) in Hw
    by (cbn [length]; lia).
  destruct (getDealActivities_progress (d_id deal) _ w Hw)
    as (activities & w1 & Hrun & Hw1 & Hf1).
  rewrite Hrun.
  assert (Hround : exists w2, Sync.export_deal deal w = Return tt w2
                              /\ suffices (5 * length deals + m) w2 /\ fs_fault w2 = None).
  { unfold Sync.export_deal, bind. rewrite Hrun.
    destruct (Sync.hasActivities activities); [|exists w1; by rewrite Hf1].
    unfold Sync.saveToFile, fs_writeFile. cbn [fs_fault call].
    rewrite Hf1, Hfault. eexists. split; [done|]. split; [exact Hw1|]. cbn.
    by rewrite Hf1. }
  destruct Hround as (w2 & -> & Hw2 & Hf2).
  destruct (IH m w2 Hf2 Hw2) as (w' & -> & Hw' & Hf' & Hlen).
  exists w'. cbn [length]. by rewrite Hlen.
Qed.

(** X8. With a file system that works and vendor answers at hand for five
    listings per deal, the loop over the deals runs to its end whatever the
    answers are: failed listings, failed batched reads and failed token
    exchanges stop no round.  Every deal gets its record, and the records
    with an engagement are the files written, in the order of the deals. *)
Theorem export_deals_runs_to_the_end :
  forall (deals : list Deal) (w : World),
    fs_fault w = None ->
    suffices (5 * length deals) w ->
    exists w' cs,
      Sync.export_deals deals w = Return tt w'
      /\ length (records_of_run deals w) = length deals
      /\ calls w' = calls w ++ cs
      /\ activity_writes cs
         = map (record_file w)
             (filter (fun a => Sync.hasActivities a) (records_of_run deals w)).
Proof.
  intros deals w Hfault Hw.
  destruct (export_deals_progress deals 0 w Hfault) as (w' & Hrun & _ & _ & Hlen).
  { by rewrite Nat.add_0_r. }
  destruct (export_deals_writes deals w w' Hrun) as (_ & cs & Hcs & Hwrites).
  by exists w', cs.
Qed.

Lemma export_deals_runs_to_the_end_witness :
  exists w' cs,
    Sync.export_deals [mkDeal "A" []; mkDeal "B" []; mkDeal "C" []]
      (set_page_answers [] world_three_deals) = Return tt w'
    /\ length (records_of_run [mkDeal "A" []; mkDeal "B" []; mkDeal "C" []]
                 (set_page_answers [] world_three_deals)) = 3
    /\ calls w' = calls (set_page_answers [] world_three_deals) ++ cs
    /\ activity_writes cs
       = map (record_file (set_page_answers [] world_three_deals))
           (filter (fun a => Sync.hasActivities a)
              (records_of_run [mkDeal "A" []; mkDeal "B" []; mkDeal "C" []]
                 (set_page_answers [] world_three_deals))).
Proof.
  apply (export_deals_runs_to_the_end [mkDeal "A" []; mkDeal "B" []; mkDeal "C" []]
           (set_page_answers [] world_three_deals)).
  - reflexivity.
  - vm_compute. repeat split; lia.
Defined.



(** X10. When the listing of the deals fails for good, the run ends without
    raising and without having written any file: the deals of the pages
    that were answered are not saved. *)
Theorem exportDealsAndActivities_listing_failure_writes_nothing :
  forall (w : World) (pre : list PageResponse) (e : Error)
         (rest : list (Answer PageResponse)),
    fs_fault w = None ->
    page_answers w = map Ok pre ++ Failed e :: rest ->
    Forall (fun r => is_Some (Sync.next_page r)) pre ->
    Sync.token_expired e w = false ->
    exists w',
      Sync.exportDealsAndActivities w = Return tt w'
      /\ calls w'
         = calls w
           ++ [Mkdir (Name (cfg_outputDir (config w)));
               Mkdir (Join (cfg_outputDir (config w)) "activities")]
           ++ page_requests w (None :: map cursor_after pre)
      /\ files w' = files w.
Proof.
  intros w pre e rest Hfault Hw Hpre Hexp.
  set (out := cfg_outputDir (config w)).
  set (w2 := call (Mkdir (Join out "activities")) (call (Mkdir (Name out)) w)).
  destruct (getAllDeals_loop_fails pre e rest None [] w2 Hpre)
    as (w1 & Hrun & _ & Hcalls & _ & _ & Hf & _).
  change (Sync.token_expired e w2) with (Sync.token_expired e w) in Hrun.
  rewrite Hexp in Hrun.
  exists w1. split; [|split].
  - unfold Sync.exportDealsAndActivities, Sync.ensureDirectoryExists, Sync.getAllDeals.
    unfold_js. cbn [fs_fault call config]. rewrite Hfault.
    cbn [fs_fault call config]. rewrite Hfault.
    fold out. fold w2. change (page_answers w2) with (page_answers w). by rewrite Hw, Hrun.
  - rewrite Hcalls. cbn [calls w2 call]. by rewrite <- !app_assoc.
  - by rewrite Hf.
Qed.

Lemma exportDealsAndActivities_listing_failure_writes_nothing_witness :
  exists w',
    Sync.exportDealsAndActivities world_500_on_page2 = Return tt w'
    /\ calls w'
       = [Mkdir (Name "./data"); Mkdir (Join "./data" "activities");
          GetPage 100 None (Some "tok0"); GetPage 100 (Some "c1") (Some "tok0")]
    /\ files w' = files world_500_on_page2.
Proof.
  apply (exportDealsAndActivities_listing_failure_writes_nothing world_500_on_page2
           [page1] e500 [Ok page2]).
  - reflexivity.
  - reflexivity.
  - repeat constructor. by eexists.
  - reflexivity.
Defined.

(** X11. When a directory cannot be made, for another reason than that it
    exists, the run ends at once without raising: no request goes to the
    vendor and no file is written. *)
Theorem exportDealsAndActivities_without_directory :
  forall (w : World) (e : Error),
    fs_fault w = Some e ->
    code e <> Some "EEXIST" ->
    Sync.exportDealsAndActivities w
    = Return tt (call (Mkdir (Name (cfg_outputDir (config w)))) w).
Proof.
  intros w e Hfault Hcode.
  unfold Sync.exportDealsAndActivities, Sync.ensureDirectoryExists. unfold_js.
  cbn [fs_fault call]. rewrite Hfault. by rewrite decide_False.
Qed.

Lemma exportDealsAndActivities_without_directory_witness :
  Sync.exportDealsAndActivities world_no_directory
  = Return tt (call (Mkdir (Name "./data")) world_no_directory).
Proof.
  apply (exportDealsAndActivities_without_directory world_no_directory EACCES).
  - reflexivity.
  - discriminate.
Defined.

(** * Properties of the OAuth bootstrap script *)

(** ** The two [updateEnvFile]s *)

Lemma OAuth_updateEnvFile_read (k : OAuth.Constants) (tokens : Tokens) (w : World) :
  is_Some (files w !! ".env") ->
  OAuth.updateEnvFile k tokens w = Sync.updateEnvFile tokens w.
Proof.
  intros [content Hfile]. unfold OAuth.updateEnvFile, Sync.updateEnvFile. unfold_js.
  cbn [files call]. by rewrite Hfile.
Qed.

Lemma OAuth_updateEnvFile_frame (k : OAuth.Constants) (tokens : Tokens) (w : World) :
  exists w', OAuth.updateEnvFile k tokens w = Return tt w' /\ fs_step w w'.
Proof.
  destruct (files w !! ".env") as [content|] eqn:Hfile.
  - rewrite OAuth_updateEnvFile_read by done. apply updateEnvFile_frame.
  - unfold OAuth.updateEnvFile. unfold_js. cbn [files call]. rewrite Hfile.
    cbn [files call].
    destruct (files w !! ".env.example") as [example|]; cbn [fs_fault call];
      destruct (fs_fault w) as [e|] eqn:Hfault; eexists; (split; [done|]);
      (split; try done; cbn [fs_fault files calls call store set_files];
       first [rewrite ?Hfault; by intros [? ?]
             |eexists; split; [by rewrite <- ?app_assoc|done]]).
Qed.

(** X12. The two scripts persist tokens alike when [.env] can be read.  When it
    cannot, the export script writes nothing, so the refreshed tokens live
    in [config] only, and the bootstrap script makes a new [.env] from
    [.env.example] or, failing that, from its own text. *)
Theorem updateEnvFile_of_the_two_scripts :
  forall (k : OAuth.Constants) (tokens : Tokens) (w : World),
    (is_Some (files w !! ".env") ->
     OAuth.updateEnvFile k tokens w = Sync.updateEnvFile tokens w)
    /\ (files w !! ".env" = None ->
        Sync.updateEnvFile tokens w = Return tt (call (ReadFile ".env") w)
        /\ exists w',
            OAuth.updateEnvFile k tokens w = Return tt w'
            /\ calls w'
               = calls w
                 ++ [ReadFile ".env"; ReadFile ".env.example";
                     WriteFile (Name ".env")
                       (Text (update_token_values tokens
                                (default (OAuth.from_scratch k)
                                   (files w !! ".env.example"))))]
            /\ (fs_fault w = None ->
                files w'
                = <[".env" := update_token_values tokens
                                (default (OAuth.from_scratch k)
                                   (files w !! ".env.example"))]> (files w))
            /\ (is_Some (fs_fault w) -> files w' = files w)).
Proof.
  intros k tokens w. split.
  - apply OAuth_updateEnvFile_read.
  - intros Hfile. split.
    + unfold Sync.updateEnvFile. unfold_js. cbn [files call]. by rewrite Hfile.
    + unfold OAuth.updateEnvFile. unfold_js. cbn [files call]. rewrite Hfile.
      cbn [files call].
      destruct (files w !! ".env.example") as [example|]; cbn [default from_option id];
        cbn [fs_fault call]; destruct (fs_fault w) as [e|]; eexists;
        (split; [done|]); cbn [calls call store set_files files];
        rewrite <- ?app_assoc; cbn [app]; by repeat split.
Qed.

Lemma updateEnvFile_of_the_two_scripts_witness :
  Sync.updateEnvFile new_tokens world_only_example
  = Return tt (call (ReadFile ".env") world_only_example)
  /\ exists w',
      OAuth.updateEnvFile oauth_constants new_tokens world_only_example = Return tt w'
      /\ calls w'
         = calls world_only_example
           ++ [ReadFile ".env"; ReadFile ".env.example";
               WriteFile (Name ".env")
                 (Text (update_token_values new_tokens
                          (default (OAuth.from_scratch oauth_constants)
                             (files world_only_example !! ".env.example"))))]
      /\ (fs_fault world_only_example = None ->
          files w'
          = <[".env" := update_token_values new_tokens
                          (default (OAuth.from_scratch oauth_constants)
                             (files world_only_example !! ".env.example"))]>
              (files world_only_example))
      /\ (is_Some (fs_fault world_only_example) -> files w' = files world_only_example).
Proof.
  apply (updateEnvFile_of_the_two_scripts oauth_constants new_tokens world_only_example).
  reflexivity.
Defined.

(** ** Refreshing in the bootstrap script *)

Lemma OAuth_refreshAccessToken_cases (k : OAuth.Constants) (refreshToken : string)
    (w : World) :
  match token_answers w with
  | [] => OAuth.refreshAccessToken k refreshToken w = Pending
  | Failed e :: ts =>
      OAuth.refreshAccessToken k refreshToken w
      = Return None
          (call (TokensCreate (OAuth.HUBSPOT_CLIENT_ID k) (OAuth.HUBSPOT_CLIENT_SECRET k)
                   (Some refreshToken))
             (set_token_answers ts w))
  | Ok r :: ts =>
      exists w',
        OAuth.refreshAccessToken k refreshToken w
        = Return (Some (mkTokens (res_accessToken r) (res_refreshToken r)
                          (now w + res_expiresIn r * 1000))) w'
        /\ fs_step
             (call (TokensCreate (OAuth.HUBSPOT_CLIENT_ID k) (OAuth.HUBSPOT_CLIENT_SECRET k)
                      (Some refreshToken))
                (set_token_answers ts w)) w'
  end.
Proof.
  unfold OAuth.refreshAccessToken. unfold_js.
  destruct (token_answers w) as [|[r|e] ts] eqn:Htok; [done| |done].
  set (w1 := call _ _). cbn [now w1 call set_token_answers].
  destruct (OAuth_updateEnvFile_frame k
              (mkTokens (res_accessToken r) (res_refreshToken r)
                 (now w + res_expiresIn r * 1000)) w1) as (w' & -> & Hfs).
  by exists w'.
Qed.

(** X13. [refreshAccessToken] of the bootstrap script never raises.  It returns
    [null] when the token exchange fails, and has then touched no file; when
    the exchange succeeds it returns the new tokens, whether or not they
    could be written to [.env].  The request carries the refresh token it
    was given and the client id and secret of the script; [config] and the
    token of the client stay as they were. *)
Theorem OAuth_refreshAccessToken_null_iff_exchange_fails :
  forall (k : OAuth.Constants) (refreshToken : string) (w : World),
    (forall e w', OAuth.refreshAccessToken k refreshToken w <> Throw e w')
    /\ (forall e ts,
          token_answers w = Failed e :: ts ->
          exists w',
            OAuth.refreshAccessToken k refreshToken w = Return None w'
            /\ files w' = files w
            /\ calls w'
               = calls w
                 ++ [TokensCreate (OAuth.HUBSPOT_CLIENT_ID k) (OAuth.HUBSPOT_CLIENT_SECRET k)
                       (Some refreshToken)])
    /\ (forall r ts,
          token_answers w = Ok r :: ts ->
          exists w' cs,
            OAuth.refreshAccessToken k refreshToken w
            = Return (Some (mkTokens (res_accessToken r) (res_refreshToken r)
                              (now w + res_expiresIn r * 1000))) w'
            /\ config w' = config w /\ bearer w' = bearer w
            /\ calls w'
               = calls w
                 ++ TokensCreate (OAuth.HUBSPOT_CLIENT_ID k) (OAuth.HUBSPOT_CLIENT_SECRET k)
                      (Some refreshToken) :: cs
            /\ forallb is_fs_call cs = true
            /\ (is_Some (fs_fault w) -> files w' = files w)).
Proof.
  intros k refreshToken w.
  pose proof (OAuth_refreshAccessToken_cases k refreshToken w) as Hcases.
  split; [|split].
  - intros e w' Hrun. destruct (token_answers w) as [|[r|e'] ts]; [congruence| |congruence].
    destruct Hcases as (w1 & Hrun1 & _). congruence.
  - intros e ts Hw. rewrite Hw in Hcases. by eexists.
  - intros r ts Hw. rewrite Hw in Hcases. destruct Hcases as (w' & Hrun & Hfs).
    destruct Hfs as [Hc Hb _ _ _ _ _ _ Hfi (cs & Hcs & Hfs)].
    exists w', cs. split; [done|]. split; [done|]. split; [done|].
    split; [rewrite Hcs; cbn; by rewrite <- app_assoc|]. split; [done|]. apply Hfi.
Qed.

Lemma OAuth_refreshAccessToken_null_iff_exchange_fails_witness :
  exists w',
    OAuth.refreshAccessToken oauth_constants "ref0" world_expired_refresh_fails
    = Return None w'
    /\ files w' = files world_expired_refresh_fails
    /\ calls w'
       = calls world_expired_refresh_fails
         ++ [TokensCreate (Some "cid") (Some "sec") (Some "ref0")].
Proof.
  destruct (OAuth_refreshAccessToken_null_iff_exchange_fails oauth_constants "ref0"
              world_expired_refresh_fails) as (_ & Hfails & _).
  apply (Hfails e500 []). reflexivity.
Defined.

(** ** The decision of [main] *)

Lemma checkExistingTokens_returns (w : World) :
  exists t, OAuth.checkExistingTokens w = Return t (call (ReadFile ".env") w).
Proof.
  unfold OAuth.checkExistingTokens. unfold_js. cbn [files call].
  destruct (files w !! ".env") as [content|]; [|by eexists].
  destruct (match_key_plus "HUBSPOT_ACCESS_TOKEN=" content),
    (match_key_plus "HUBSPOT_REFRESH_TOKEN=" content),
    (match_key_plus "HUBSPOT_TOKEN_EXPIRES_AT=" content); by eexists.
Qed.

(** X14. [main] never raises.  It ends without starting the listener exactly
    when [.env] holds the three values and either they are not expired or
    the token exchange succeeds; with tokens that are not expired it does
    nothing but read [.env].  It starts the listener on port 3000 when the
    values are not all there, or when they are expired and the exchange
    fails. *)
Theorem main_starts_listener_iff :
  forall (k : OAuth.Constants) (w : World),
    (forall e w', OAuth.main k w <> Throw e w')
    /\ exists t,
        OAuth.checkExistingTokens w = Return t (call (ReadFile ".env") w)
        /\ forall m w',
            OAuth.main k w = Return m w' ->
            (m = OAuth.Returned
             <-> exists tok,
                   t = Some tok
                   /\ (OAuth.expired tok w = false
                       \/ exists r ts, token_answers w = Ok r :: ts))
            /\ (m = OAuth.Listening 3000
                <-> t = None
                    \/ exists tok e ts,
                         t = Some tok /\ OAuth.expired tok w = true
                         /\ token_answers w = Failed e :: ts)
            /\ (forall tok, t = Some tok -> OAuth.expired tok w = false ->
                  w' = call (ReadFile ".env") w).
Proof.
  intros k w. destruct (checkExistingTokens_returns w) as [t Hcheck].
  unfold OAuth.main, bind. rewrite Hcheck.
  destruct t as [tok|]; cycle 1.
  { split; [done|]. exists None. split; [done|]. intros m w' [= <- <-].
    split; [|split]; [split; [done|by intros (tok & ? & _)]|split; [by left|done]|done]. }
  change (OAuth.expired tok (call (ReadFile ".env") w)) with (OAuth.expired tok w).
  destruct (OAuth.expired tok w) eqn:Hexp; cycle 1.
  { split; [done|]. exists (Some tok). split; [done|]. intros m w' [= <- <-].
    split; [|split].
    - split; [|done]. intros _. exists tok. split; [done|by left].
    - split; [done|]. intros [|(tok' & e & ts & [= <-] & Hexp' & _)]; congruence.
    - done. }
  set (w1 := call _ w).
  pose proof (OAuth_refreshAccessToken_cases k (OAuth.ex_refreshToken tok) w1) as Hcases.
  change (token_answers w1) with (token_answers w) in Hcases.
  destruct (token_answers w) as [|[r|e] ts] eqn:Htok.
  - rewrite Hcases. split; [done|]. exists (Some tok). by split.
  - destruct Hcases as (w2 & -> & _). split; [done|]. exists (Some tok). split; [done|].
    intros m w' [= <- <-]. split; [|split].
    + split; [|done]. intros _. exists tok. split; [done|]. right. by exists r, ts.
    + split; [done|]. intros [|(tok' & e & ts' & _ & _ & ?)]; congruence.
    + intros tok' [= <-]. congruence.
  - rewrite Hcases. split; [done|]. exists (Some tok). split; [done|].
    intros m w' [= <- <-]. split; [|split].
    + split; [done|]. intros (tok' & [= <-] & [?|(r & ts' & ?)]); congruence.
    + split; [|done]. intros _. right. by exists tok, e, ts.
    + intros tok' [= <-]. congruence.
Qed.

Lemma main_starts_listener_iff_witness :
  exists t w',
    OAuth.checkExistingTokens world_expired_refresh_fails
    = Return t (call (ReadFile ".env") world_expired_refresh_fails)
    /\ OAuth.main oauth_constants world_expired_refresh_fails
       = Return (OAuth.Listening 3000) w'
    /\ (t = None
        \/ exists tok e ts,
             t = Some tok /\ OAuth.expired tok world_expired_refresh_fails = true
             /\ token_answers world_expired_refresh_fails = Failed e :: ts).
Proof.
  destruct (main_starts_listener_iff oauth_constants world_expired_refresh_fails)
    as (_ & t & Hcheck & Hmain).
  destruct (OAuth.main oauth_constants world_expired_refresh_fails) as [m w'|e w'|] eqn:Hrun;
    [|vm_compute in Hrun; discriminate..].
  exists t, w'. split; [exact Hcheck|].
  destruct (Hmain m w' eq_refl) as (_ & [Hlisten _] & _).
  assert (Hm : m = OAuth.Listening 3000) by (vm_compute in Hrun; by injection Hrun as <- _).
  split; [by rewrite Hm|]. by apply Hlisten.
Defined.

(** X15. An expiry in [.env] that is not a number never counts as expired: with
    the three values there, [main] ends at once, with no token exchange and
    no listener, whatever the clock says. *)
Theorem main_unreadable_expiry_counts_as_valid :
  forall (k : OAuth.Constants) (w : World) (content : string) (a r e : RegExpMatch),
    files w !! ".env" = Some content ->
    match_key_plus "HUBSPOT_ACCESS_TOKEN=" content = Some a ->
    match_key_plus "HUBSPOT_REFRESH_TOKEN=" content = Some r ->
    match_key_plus "HUBSPOT_TOKEN_EXPIRES_AT=" content = Some e ->
    parseInt (capture1 e) = None ->
    OAuth.main k w = Return OAuth.Returned (call (ReadFile ".env") w).
Proof.
  intros k w content a r e Hfile Ha Hr He Hnan.
  unfold OAuth.main, OAuth.checkExistingTokens. unfold_js. cbn [files call].
  rewrite Hfile, Ha, Hr, He. unfold OAuth.expired. cbn [OAuth.ex_expiresAt].
  by rewrite Hnan.
Qed.

Lemma main_unreadable_expiry_counts_as_valid_witness :
  OAuth.main oauth_constants (world_dotenv dotenv_bad_expiry)
  = Return OAuth.Returned (call (ReadFile ".env") (world_dotenv dotenv_bad_expiry)).
Proof.
  eapply (main_unreadable_expiry_counts_as_valid oauth_constants
            (world_dotenv dotenv_bad_expiry) dotenv_bad_expiry);
    vm_compute; reflexivity.
Defined.

(** * Writing the tokens and reading them back *)

(** ** Prefixes and occurrences *)

Lemma length_append (a b : string) :
  String.length (a +:+ b) = String.length a + String.length b.
Proof. induction a as [|c a IH]; [done|]. rewrite append_cons. cbn. by rewrite IH. Qed.







(** A pattern of one line does not reach over a line feed. *)
Lemma strip_prefix_line (p x y : string) :
  one_line p = true -> strip_prefix p x = None ->
  strip_prefix p (x +:+ nl +:+ y) = None.
Proof.
  revert x. induction p as [|a p IH]; intros x Hline Hp; [done|].
  cbn in Hline. apply andb_prop in Hline as [Ha Hline]. apply negb_true_iff in Ha.
  destruct x as [|b x].
  - rewrite append_nil. unfold nl. rewrite append_cons. cbn. by rewrite Ha.
  - rewrite append_cons. cbn in *. destruct (Ascii.eqb a b); [|done]. by apply IH.
Qed.


(** ** Lines *)

Lemma unlines_lines (s : string) : unlines (lines s) = s.
Proof.
  induction s as [|c s IH]; [done|]. cbn [lines].
  pose proof (lines_nonempty s) as Hne.
  destruct (Ascii.eqb_spec c LF) as [->|Hc].
  - cbn [unlines]. destruct (lines s) as [|l ls]; [done|].
    by rewrite IH, append_nil.
  - destruct (lines s) as [|l ls]; [done|]. cbn [unlines] in *.
    destruct ls; [by rewrite IH|]. by rewrite append_cons, IH.
Qed.


Lemma append_empty (s : string) : s +:+ EmptyString = s.
Proof. induction s as [|c s IH]; [done|]. by rewrite append_cons, IH. Qed.

Lemma unlines_cons (l : string) (ls : list string) :
  unlines (l :: ls) = l +:+ after_line ls.
Proof. destruct ls; cbn [unlines after_line]; by rewrite ?append_empty. Qed.




Section one_key.

Variable key : string.
Hypothesis key_line : one_line key = true.
Hypothesis key_nonempty : key <> EmptyString.






End one_key.

(** ** The entries of the token keys *)


Lemma search_char_before (c : ascii) (s b r : string) :
  search (String c EmptyString) s = Some (b, r) -> search (String c EmptyString) b = None.
Proof.
  revert b. induction s as [|d s IH]; intros b; cbn [search strip_prefix]; [done|].
  destruct (Ascii.eqb c d) eqn:Hc; [by intros [= <- <-]|].
  destruct (search _ s) as [[b' r']|]; [|done]. intros [= <- <-].
  cbn [search strip_prefix]. by rewrite Hc, (IH b' eq_refl).
Qed.


Lemma value_text_no_eq (v : string) : value_text v = true -> search "=" v = None.
Proof.
  induction v as [|c v IH]; [done|]. cbn [value_text search strip_prefix].
  intros [Hc Hv]%andb_prop. unfold value_char in Hc. apply andb_prop in Hc as [Hc _].
  apply negb_true_iff in Hc. rewrite Ascii.eqb_sym in Hc. by rewrite Hc, (IH Hv).
Qed.



Ltac token_key H :=
  unfold token_keys in H;
  repeat (apply elem_of_cons in H as [->|H]); [..|by apply elem_of_nil in H].













(** ** The expiry *)







(** ** The three values *)







(** ** From the export script to the bootstrap script *)



(** ** Entries without a value *)

Lemma strip_prefix_length (p s r : string) :
  strip_prefix p s = Some r -> String.length p <= String.length s.
Proof. intros ->%strip_prefix_split. rewrite length_append. lia. Qed.

Section reading_pattern.

Variable key : string.
Hypothesis key_line : one_line key = true.
Hypothesis key_nonempty : key <> EmptyString.

Lemma strip_prefix_line_end (x t : string) :
  line_end t -> strip_prefix key x = None -> strip_prefix key (x +:+ t) = None.
Proof.
  intros [->|[y ->]] Hx; [by rewrite append_empty|].
  change (String LF y) with (nl +:+ y). by apply strip_prefix_line.
Qed.

Lemma match_key_plus_step (c : ascii) (s : string) :
  match_key_plus_here key (String c s) = None ->
  match_key_plus key (String c s) = shift (String c EmptyString) <$> match_key_plus key s.
Proof.
  intros Hhere. cbn [match_key_plus]. rewrite Hhere. by destruct (match_key_plus key s).
Qed.

Lemma match_key_plus_line_end (t : string) :
  line_end t ->
  match_key_plus key t
  = match t with
    | EmptyString => None
    | String c y => shift (String c EmptyString) <$> match_key_plus key y
    end.
Proof.
  intros [->|[y ->]].
  - cbn [match_key_plus]. unfold match_key_plus_here.
    destruct (strip_prefix key EmptyString) as [r|] eqn:Hp; [|done].
    apply strip_prefix_length in Hp. destruct key; [done|cbn in Hp; lia].
  - apply match_key_plus_step. unfold match_key_plus_here.
    rewrite <- (append_nil (String LF y)).
    change (String LF y) with (nl +:+ y). rewrite strip_prefix_line; [done..|].
    destruct (strip_prefix key EmptyString) as [r|] eqn:Hp; [|done].
    apply strip_prefix_length in Hp. destruct key; [done|cbn in Hp; lia].
Qed.

Lemma match_key_plus_cons (c : ascii) (s : string) :
  strip_prefix key (String c s) = None ->
  match_key_plus key (String c s) = shift (String c EmptyString) <$> match_key_plus key s.
Proof.
  intros Hp. cbn [match_key_plus]. unfold match_key_plus_here. rewrite Hp.
  by destruct (match_key_plus key s).
Qed.

Lemma shift_shift (x y : string) (m : option RegExpMatch) :
  shift x <$> (shift y <$> m) = shift (x +:+ y) <$> m.
Proof. destruct m as [m|]; [|done]. cbn. unfold shift. cbn. by rewrite append_assoc. Qed.

Lemma shift_empty (m : option RegExpMatch) : shift EmptyString <$> m = m.
Proof. destruct m as [[? ? ? ?]|]; [|done]. cbn. unfold shift. cbn. by rewrite append_nil. Qed.

(** A line too short for the key, or one that does not mention it. *)
Lemma match_key_plus_skip (x t : string) :
  line_end t ->
  String.length x < String.length key \/ search key x = None ->
  match_key_plus key (x +:+ t) = shift x <$> match_key_plus key t.
Proof.
  intros Ht. induction x as [|c x IH]; intros Hx.
  - by rewrite append_nil, shift_empty.
  - assert (Hhere : strip_prefix key (String c x) = None).
    { destruct Hx as [Hlen|Hsearch].
      - destruct (strip_prefix key (String c x)) as [r|] eqn:Hp; [|done].
        apply strip_prefix_length in Hp. lia.
      - cbn [search] in Hsearch. by destruct (strip_prefix key (String c x)). }
    assert (Hrest : String.length x < String.length key \/ search key x = None).
    { destruct Hx as [Hlen|Hsearch]; [left; cbn in Hlen; lia|right].
      cbn [search] in Hsearch. rewrite Hhere in Hsearch.
      by destruct (search key x) as [[? ?]|]. }
    rewrite append_cons, match_key_plus_cons, (IH Hrest), shift_shift.
    + by rewrite append_cons, append_nil.
    + rewrite <- append_cons. by apply strip_prefix_line_end.
Qed.

(** The entry of the key, without a value. *)
Lemma match_key_plus_bare (t : string) :
  line_end t -> match_key_plus key (key +:+ t) = shift key <$> match_key_plus key t.
Proof.
  intros Ht.
  assert (Hhere : match_key_plus_here key (key +:+ t) = None).
  { unfold match_key_plus_here. rewrite strip_prefix_append.
    by destruct Ht as [->|[y ->]]. }
  assert (Hk : exists a p, key = String a p) by (destruct key; [done|by eexists _, _]).
  destruct Hk as (a & p & Hkey).
  assert (Heq : key +:+ t = String a (p +:+ t)) by by rewrite Hkey, append_cons.
  rewrite Heq, match_key_plus_step by by rewrite <- Heq.
  rewrite match_key_plus_skip; [|done|left; rewrite Hkey; cbn; lia].
  rewrite shift_shift, append_cons, append_nil. by rewrite <- Hkey.
Qed.

Lemma match_key_plus_without_value (ls : list string) :
  Forall (fun l => includes key l = true -> l = key) ls ->
  match_key_plus key (unlines ls) = None.
Proof.
  induction 1 as [|l ls Hl Hls IH].
  - cbn [unlines]. by rewrite match_key_plus_line_end by by left.
  - rewrite unlines_cons.
    assert (Hend : line_end (after_line ls)).
    { destruct ls; [by left|right]. eexists. unfold after_line, nl.
      by rewrite append_cons, append_nil. }
    assert (Hafter : match_key_plus key (after_line ls) = None).
    { rewrite match_key_plus_line_end by done. destruct ls as [|l' ls]; [done|].
      unfold after_line, nl. rewrite append_cons, append_nil. by rewrite IH. }
    unfold includes in Hl. destruct (search key l) as [[b r]|] eqn:Hsearch.
    + rewrite (Hl eq_refl), match_key_plus_bare, Hafter; done.
    + rewrite match_key_plus_skip, Hafter; [done..|by right].
Qed.

End reading_pattern.

(** X18. An [.env] in which a token key stands without a value, as in one copied
    from the template, counts as holding no tokens: [checkExistingTokens]
    returns [null] and [main] starts the listener, with no token
    exchange. *)
Theorem tokens_without_value_start_the_flow :
  forall (k : OAuth.Constants) (w : World) (content key : string),
    files w !! ".env" = Some content ->
    key ∈ token_keys ->
    without_value key content = true ->
    OAuth.checkExistingTokens w = Return None (call (ReadFile ".env") w)
    /\ OAuth.main k w = Return (OAuth.Listening 3000) (call (ReadFile ".env") w).
Proof.
  intros k w content key Hfile Hkey Hbare.
  assert (Hnone : match_key_plus key content = None).
  { rewrite <- (unlines_lines content).
    apply match_key_plus_without_value; [token_key Hkey; reflexivity|token_key Hkey; done|].
    unfold without_value in Hbare. rewrite forallb_forall in Hbare.
    apply Forall_forall. intros l Hl Hmentions.
    specialize (Hbare l (proj1 (list_elem_of_In _ _) Hl)). rewrite Hmentions in Hbare.
    by apply String.eqb_eq in Hbare. }
  assert (Hcheck : OAuth.checkExistingTokens w = Return None (call (ReadFile ".env") w)).
  { unfold OAuth.checkExistingTokens. unfold_js. cbn [files call]. rewrite Hfile.
    token_key Hkey; rewrite Hnone;
      by repeat match goal with |- context [match_key_plus ?key' content] =>
                  destruct (match_key_plus key' content) end. }
  split; [done|]. unfold OAuth.main, bind. by rewrite Hcheck.
Qed.

Lemma tokens_without_value_start_the_flow_witness :
  OAuth.checkExistingTokens world_template
  = Return None (call (ReadFile ".env") world_template)
  /\ OAuth.main oauth_constants world_template
     = Return (OAuth.Listening 3000) (call (ReadFile ".env") world_template).
Proof.
  apply (tokens_without_value_start_the_flow oauth_constants world_template dotenv_example
           "HUBSPOT_REFRESH_TOKEN=").
  - reflexivity.
  - unfold token_keys. set_solver.
  - reflexivity.
Defined.
